(** * Sierra-Timeplase: the curation-and-assembly pipeline of
      [scripts/generate_timelapse_last7days]

    A shallow embedding of the timelapse generator: the filename timestamp
    codec, the image gatherer, the window computer, the frame-quality
    classifier and the assembly loop of [main], followed by the properties
    stated about them.

    Conventions.
    - Python [str] values are [list ascii]; file names are taken to be ASCII,
      so the regular-expression class [\d] is the range ['0'..'9'].
    - Python [int] is [Z].
    - A call that may raise returns a [result]; [Raise e] is an uncaught
      exception, which ends the interpreter with a traceback and a non-zero
      status when it escapes [main].
    - What the script obtains from outside (directory listings, the clock,
      the time-zone database, the sunrise provider, [cv2.imread] and the
      pixel statistics of [cv2]/[numpy]) is an explicit input. *)

From Stdlib Require Import ZArith QArith Bool List Ascii String Lia.
From Stdlib Require Import Permutation Sorted.
Import ListNotations.

Local Open Scope Z_scope.

(* ===================================================================== *)
(** ** Exceptions *)
(* ===================================================================== *)

Inductive exn : Type :=
| ValueError
| RuntimeError.

Inductive result (A : Type) : Type :=
| Ok (a : A)
| Raise (e : exn).

Arguments Ok {A} a.
Arguments Raise {A} e.

Definition bind {A B : Type} (r : result A) (k : A -> result B) : result B :=
  match r with
  | Ok a => k a
  | Raise e => Raise e
  end.

Notation "'let*' x ':=' r 'in' k" := (bind r (fun x => k))
  (at level 10, x pattern, r at level 100, k at level 200).

(* ===================================================================== *)
(** ** Python strings *)
(* ===================================================================== *)

Abbreviation str := (list ascii) (only parsing).

Definition lit (s : string) : str := list_ascii_of_string s.

(** [s[a:b]] for [0 <= a <= b]; like Python's slices it clamps at the end of
    the string. *)
Definition slice (a b : nat) (s : str) : str := firstn (b - a) (skipn a s).

Definition is_digit (c : ascii) : bool :=
  let n := N_of_ascii c in ((48 <=? n) && (n <=? 57))%N.

Definition digit_value (c : ascii) : Z := Z.of_N (N_of_ascii c) - 48.

Definition all_digits (s : str) : bool := forallb is_digit s.

Definition underscore : ascii := "_"%char.

Definition is_underscore (c : ascii) : bool := Ascii.eqb c underscore.

(** [int(s)] on a string of decimal digits.  Anything else (the empty string
    included) raises [ValueError]; the script only ever passes two-digit
    slices of a matched token. *)
Definition py_int (s : str) : result Z :=
  match s with
  | [] => Raise ValueError
  | _ => if all_digits s
         then Ok (fold_left (fun acc c => 10 * acc + digit_value c) s 0)
         else Raise ValueError
  end.

(** [s.split(sep)] for a one-character separator. *)
Fixpoint split_on (sep : ascii) (s : str) : list str :=
  match s with
  | [] => [[]]
  | c :: s' =>
      if Ascii.eqb c sep then [] :: split_on sep s'
      else match split_on sep s' with
           | [] => [[c]]
           | w :: ws => (c :: w) :: ws
           end
  end.

(** ASCII [str.lower()]. *)
Definition lower_char (c : ascii) : ascii :=
  let n := N_of_ascii c in
  if ((65 <=? n) && (n <=? 90))%N then ascii_of_N (n + 32) else c.

Definition lower (s : str) : str := map lower_char s.

Definition str_eqb (a b : str) : bool :=
  String.eqb (string_of_list_ascii a) (string_of_list_ascii b).

(* ===================================================================== *)
(** ** The part of Python's [datetime] the script relies on *)
(* ===================================================================== *)

Record date : Type := mkDate {
  d_year : Z;
  d_month : Z;
  d_day : Z
}.

(** A naive [datetime]. *)
Record datetime : Type := mkDatetime {
  year : Z;
  month : Z;
  day : Z;
  hour : Z;
  minute : Z;
  second : Z;
  microsecond : Z
}.

Definition MINYEAR : Z := 1.
Definition MAXYEAR : Z := 9999.

Definition _is_leap (y : Z) : bool :=
  (y mod 4 =? 0) && (negb (y mod 100 =? 0) || (y mod 400 =? 0)).

Definition _DAYS_IN_MONTH (m : Z) : Z :=
  match m with
  | 1 => 31 | 2 => 28 | 3 => 31 | 4 => 30 | 5 => 31 | 6 => 30
  | 7 => 31 | 8 => 31 | 9 => 30 | 10 => 31 | 11 => 30 | 12 => 31
  | _ => 0
  end.

Definition _DAYS_BEFORE_MONTH (m : Z) : Z :=
  match m with
  | 1 => 0 | 2 => 31 | 3 => 59 | 4 => 90 | 5 => 120 | 6 => 151
  | 7 => 181 | 8 => 212 | 9 => 243 | 10 => 273 | 11 => 304 | 12 => 334
  | _ => 0
  end.

Definition _days_in_month (y m : Z) : Z :=
  if (m =? 2) && _is_leap y then 29 else _DAYS_IN_MONTH m.

Definition _days_before_year (y : Z) : Z :=
  let p := y - 1 in p * 365 + p / 4 - p / 100 + p / 400.

Definition _days_before_month (y m : Z) : Z :=
  _DAYS_BEFORE_MONTH m + (if (2 <? m) && _is_leap y then 1 else 0).

Definition _ymd2ord (y m d : Z) : Z :=
  _days_before_year y + _days_before_month y m + d.

Definition _DI400Y : Z := 146097.
Definition _DI100Y : Z := 36524.
Definition _DI4Y : Z := 1461.

Definition _ord2ymd (n0 : Z) : date :=
  let n := n0 - 1 in
  let n400 := n / _DI400Y in
  let n := n mod _DI400Y in
  let y := n400 * 400 + 1 in
  let n100 := n / _DI100Y in
  let n := n mod _DI100Y in
  let n4 := n / _DI4Y in
  let n := n mod _DI4Y in
  let n1 := n / 365 in
  let n := n mod 365 in
  let y := y + n100 * 100 + n4 * 4 + n1 in
  if (n1 =? 4) || (n100 =? 4) then mkDate (y - 1) 12 31
  else
    let leapyear := (n1 =? 3) && (negb (n4 =? 24) || (n100 =? 3)) in
    let m := Z.shiftr (n + 50) 5 in
    let preceding :=
      _DAYS_BEFORE_MONTH m + (if (2 <? m) && leapyear then 1 else 0) in
    if n <? preceding then
      let m' := m - 1 in
      let preceding' :=
        preceding
        - (_DAYS_IN_MONTH m' + (if (m' =? 2) && leapyear then 1 else 0)) in
      mkDate y m' (n - preceding' + 1)
    else mkDate y m (n - preceding + 1).

Definition _check_date_fields (y m d : Z) : bool :=
  (MINYEAR <=? y) && (y <=? MAXYEAR)
  && (1 <=? m) && (m <=? 12)
  && (1 <=? d) && (d <=? _days_in_month y m).

Definition _check_time_fields (hh mi ss us : Z) : bool :=
  (0 <=? hh) && (hh <=? 23)
  && (0 <=? mi) && (mi <=? 59)
  && (0 <=? ss) && (ss <=? 59)
  && (0 <=? us) && (us <=? 999999).

(** [datetime(year, month, day, hour, minute, second)]: raises [ValueError]
    when a field is out of range. *)
Definition datetime_new (y m d hh mi ss : Z) : result datetime :=
  if _check_date_fields y m d && _check_time_fields hh mi ss 0
  then Ok (mkDatetime y m d hh mi ss 0)
  else Raise ValueError.

(** Naive datetimes compare as the tuples of their fields. *)
Definition dt_fields (t : datetime) : list Z :=
  [year t; month t; day t; hour t; minute t; second t; microsecond t].

Fixpoint tuple_cmp (a b : list Z) : comparison :=
  match a, b with
  | [], [] => Eq
  | [], _ :: _ => Lt
  | _ :: _, [] => Gt
  | x :: a', y :: b' =>
      match x ?= y with
      | Eq => tuple_cmp a' b'
      | c => c
      end
  end.

Definition dt_cmp (a b : datetime) : comparison :=
  tuple_cmp (dt_fields a) (dt_fields b).

Definition dt_leb (a b : datetime) : bool :=
  match dt_cmp a b with Gt => false | _ => true end.

Definition dt_ltb (a b : datetime) : bool :=
  match dt_cmp a b with Lt => true | _ => false end.

Definition dt_le (a b : datetime) : Prop := dt_leb a b = true.

(** Equality of instants, as a boolean. *)
Definition dt_eqb (a b : datetime) : bool :=
  match dt_cmp a b with Eq => true | _ => false end.

(** Microseconds since 0001-01-01T00:00:00, and back: what [datetime]
    arithmetic with a [timedelta] goes through. *)
Definition dt_to_us (t : datetime) : Z :=
  (((_ymd2ord (year t) (month t) (day t) * 24 + hour t) * 60 + minute t) * 60
   + second t) * 1000000 + microsecond t.

Definition dt_of_us (u : Z) : datetime :=
  let us := u mod 1000000 in
  let s := u / 1000000 in
  let ss := s mod 60 in
  let m := s / 60 in
  let mi := m mod 60 in
  let h := m / 60 in
  let hh := h mod 24 in
  let ord := h / 24 in
  let dd := _ord2ymd ord in
  mkDatetime (d_year dd) (d_month dd) (d_day dd) hh mi ss us.

(** [t + timedelta(seconds = s)].  The [OverflowError] of a result outside
    years 1..9999 is left out: the script only moves a clock reading and a
    sunrise by days, hours and minutes. *)
Definition dt_add_seconds (t : datetime) (s : Z) : datetime :=
  dt_of_us (dt_to_us t + s * 1000000).

(** [d - timedelta(days = n)]. *)
Definition date_sub_days (d : date) (n : Z) : date :=
  _ord2ymd (_ymd2ord (d_year d) (d_month d) (d_day d) - n).

Definition dt_date (t : datetime) : date :=
  mkDate (year t) (month t) (day t).

(** [datetime.combine(d, time(hh, mi))]. *)
Definition dt_combine (d : date) (hh mi : Z) : datetime :=
  mkDatetime (d_year d) (d_month d) (d_day d) hh mi 0 0.

(* ===================================================================== *)
(** ** TimestampCodec: [extract_ts_from_name], [ts_to_datetime_utc] *)
(* ===================================================================== *)

(** Does [s] start with [n] digits? Returns the rest on success. *)
Fixpoint eat_digits (n : nat) (s : str) : option str :=
  match n with
  | O => Some s
  | S n' =>
      match s with
      | c :: s' => if is_digit c then eat_digits n' s' else None
      | [] => None
      end
  end.

(** Match of [\d{nd}_\d{6}] anchored at the start of [s]: the matched text. *)
Definition match_here (nd : nat) (s : str) : option str :=
  match eat_digits nd s with
  | Some (c :: r) =>
      if is_underscore c then
        match eat_digits 6 r with
        | Some _ => Some (firstn (nd + 7) s)
        | None => None
        end
      else None
  | _ => None
  end.

(** [re.compile(r"(\d{nd}_\d{6})").search(s)], reduced to [m.group(1)] of
    the leftmost match. *)
Fixpoint pat_search (nd : nat) (s : str) : option str :=
  match match_here nd s with
  | Some tok => Some tok
  | None =>
      match s with
      | [] => None
      | _ :: s' => pat_search nd s'
      end
  end.

Definition PAT_8 : str -> option str := pat_search 8.
Definition PAT_6 : str -> option str := pat_search 6.

(** Returns the timestamp in the form YYMMDD_HHMMSS, or [None]. *)
Definition extract_ts_from_name (name : str) : result (option str) :=
  match PAT_8 name with
  | Some g =>
      match split_on underscore g with
      | [date8; time6] =>
          let yy := slice 2 4 date8 in
          let mm := slice 4 6 date8 in
          let dd := slice 6 8 date8 in
          Ok (Some (yy ++ mm ++ dd ++ [underscore] ++ time6))
      | _ => Raise ValueError
      end
  | None =>
      match PAT_6 name with
      | Some g => Ok (Some g)
      | None => Ok None
      end
  end.

Definition ts_to_datetime_utc (tsYY : str) : result datetime :=
  let YY := slice 0 2 tsYY in
  let MM := slice 2 4 tsYY in
  let DD := slice 4 6 tsYY in
  let hh := slice 7 9 tsYY in
  let mm := slice 9 11 tsYY in
  let ss := slice 11 13 tsYY in
  let* y := py_int YY in
  let year := 2000 + y in
  let* mo := py_int MM in
  let* d := py_int DD in
  let* h := py_int hh in
  let* mi := py_int mm in
  let* s := py_int ss in
  datetime_new year mo d h mi s.


(** Python truthiness of [tsYY] in [if tsYY:]: neither [None] nor the empty
    string. *)
Definition truthy (ts : option str) : option str :=
  match ts with
  | Some (c :: r) => Some (c :: r)
  | _ => None
  end.

(** The codec as both scan loops of the gatherer call it on a name:
    [extract_ts_from_name], the test [if tsYY:], [ts_to_datetime_utc].
    [Ok None] is a name without timestamp. *)
Definition decode_name (name : str) : result (option datetime) :=
  let* ts := extract_ts_from_name name in
  match truthy ts with
  | Some tsYY => let* t := ts_to_datetime_utc tsYY in Ok (Some t)
  | None => Ok None
  end.

(** A token of the pattern [\d{nd}_\d{6}]. *)
Definition is_token (nd : nat) (g : str) : Prop :=
  exists ds ts,
    g = ds ++ underscore :: ts
    /\ List.length ds = nd /\ List.length ts = 6%nat
    /\ all_digits ds = true /\ all_digits ts = true.

(* ===================================================================== *)
(** ** ImageGatherer: [gather_images] *)
(* ===================================================================== *)

(** A [pathlib.Path] as the script sees it: its final component, the full
    path string and what [is_file()] answers. *)
Record path : Type := mkPath {
  p_name : str;
  p_str : str;
  p_is_file : bool
}.

(** What the two roots look like on disk: [IMAGES_ROOT.rglob("*")] and
    [LEGACY_5MIN.iterdir()], each in the order the iterator yields. *)
Record filesystem : Type := mkFs {
  images_root_exists : bool;
  images_root_rglob : list path;
  legacy_5min_exists : bool;
  legacy_5min_iterdir : list path
}.

(** [name.rfind(".")] *)
Fixpoint rfind_dot (s : str) (i : nat) : option nat :=
  match s with
  | [] => None
  | c :: s' =>
      match rfind_dot s' (S i) with
      | Some j => Some j
      | None => if Ascii.eqb c "."%char then Some i else None
      end
  end.

(** [Path.suffix]: the text from the last dot of the name, empty when the
    dot is missing, leading or trailing. *)
Definition suffix (p : path) : str :=
  let name := p_name p in
  match rfind_dot name 0 with
  | Some i =>
      if ((0 <? i) && (i <? List.length name - 1))%nat then skipn i name else []
  | None => []
  end.

Definition exts : list str :=
  [lit ".jpg"; lit ".jpeg"; lit ".png"; lit ".webp"; lit ".bmp"; lit ".tif";
   lit ".tiff"].

Definition in_exts (s : str) : bool := existsb (str_eqb s) exts.

Definition image : Type := (datetime * path)%type.


(** One iteration of either scan loop. *)
Definition scan_one (candidates : list image) (p : path)
  : result (list image) :=
  if p_is_file p && in_exts (lower (suffix p)) then
    let* ts := extract_ts_from_name (p_name p) in
    match truthy ts with
    | Some tsYY =>
        let* t := ts_to_datetime_utc tsYY in
        Ok (candidates ++ [(t, p)])
    | None => Ok candidates
    end
  else Ok candidates.

Fixpoint scan (candidates : list image) (ps : list path)
  : result (list image) :=
  match ps with
  | [] => Ok candidates
  | p :: ps' =>
      let* candidates' := scan_one candidates p in
      scan candidates' ps'
  end.

(** [candidates.sort(key=lambda x: x[0])]: Python's sort is stable and
    compares keys with [<] only.  The stable sort of a list under a total
    preorder is unique, so a stable insertion sort stands for it. *)
Fixpoint insert_by_key (x : image) (l : list image) : list image :=
  match l with
  | [] => [x]
  | y :: l' =>
      if dt_ltb (fst y) (fst x) then y :: insert_by_key x l'
      else x :: y :: l'
  end.

Fixpoint sort_by_key (l : list image) : list image :=
  match l with
  | [] => []
  | x :: l' => insert_by_key x (sort_by_key l')
  end.

Definition gather_images (fs : filesystem) : result (list image) :=
  let candidates := [] in
  let* candidates :=
    if images_root_exists fs then scan candidates (images_root_rglob fs)
    else Ok candidates in
  let* candidates :=
    if legacy_5min_exists fs then scan candidates (legacy_5min_iterdir fs)
    else Ok candidates in
  Ok (sort_by_key candidates).

(* ===================================================================== *)
(** ** FrameQualityClassifier: [is_bad_frame] *)
(* ===================================================================== *)

Definition MIN_DIM : Z := 100.
Definition MIN_STD : Q := 8 # 1.
Definition BLACK_LEVEL : Q := 15 # 1.
Definition WHITE_LEVEL : Q := 240 # 1.
Definition PERCENT_BLACK : Q := 55 # 100.
Definition PERCENT_WHITE : Q := 55 # 100.
Definition DOMINANT_BIN_RATIO : Q := 55 # 100.
Definition HALF_DIFF_THRESH : Q := 60 # 1.
Definition LAPL_VAR_MAX : Q := 1000000 # 1.

(** A decoded frame, seen through what the classifier reads from it:
    its shape and the values [cv2]/[numpy] compute on its grayscale image.
    - [n_black] is [np.sum(gray <= BLACK_LEVEL)], [n_white] is
      [np.sum(gray >= WHITE_LEVEL)], [hist_max] is [hist.max()];
    - [gray_std], [left_mean], [right_mean] and [lap_var] are the floats
      returned by [np.std], the two [np.mean] calls and
      [cv2.Laplacian(...).var()]; a finite float is a rational.
    Comparisons of a float with a constant are exact.  So are the three
    ratios: [count / total >= 0.55] in floats holds exactly when the exact
    quotient is at least 55/100, for every image below 2^50 pixels.  The
    difference [left_mean - right_mean] is a float subtraction and is
    rounded ([fl_sub]). *)
Record frame : Type := mkFrame {
  shape_h : Z;
  shape_w : Z;
  gray_std : Q;
  n_black : Z;
  n_white : Z;
  hist_max : Z;
  left_mean : Q;
  right_mean : Q;
  lap_var : Q
}.

(** The reason string of a verdict, with the measured value it formats. *)
Inductive reason : Type :=
| no_reason
| unreadable
| too_small (w h : Z)
| low_std (std : Q)
| mostly_black (black_ratio : Q)
| mostly_white (white_ratio : Q)
| dominant_bin (dom : Q)
| half_blank
| half_white
| excessive_lap (lap : Q).

Definition Qlt_bool (x y : Q) : bool := negb (Qle_bool y x).

Definition Qabs (x : Q) : Q := if Qle_bool 0 x then x else Qopp x.

(** [floor(log2(p/q))] for positive [p] and [q]. *)
Definition ilog2_ratio (p : Z) (q : positive) : Z :=
  let e := Z.log2 p - Z.log2 (Zpos q) in
  if 0 <=? e then (if Zpos q * 2 ^ e <=? p then e else e - 1)
  else (if Zpos q <=? p * 2 ^ (- e) then e else e - 1).

(** The integer nearest to [num/den] for [den > 0], ties to the even one. *)
Definition round_half_even (num den : Z) : Z :=
  let fl := num / den in
  let r := num mod den in
  match 2 * r ?= den with
  | Lt => fl
  | Gt => fl + 1
  | Eq => if Z.even fl then fl else fl + 1
  end.

(** The double nearest to a rational (round to nearest, ties to even; 53
    significant bits, least exponent -1022), below the overflow range. *)
Definition fl_round (x : Q) : Q :=
  match Qnum x with
  | 0 => 0 # 1
  | _ =>
      let p := Z.abs (Qnum x) in
      let q := Qden x in
      let e := Z.max (ilog2_ratio p q) (-1022) in
      let k := e - 52 in
      if 0 <=? k
      then inject_Z (round_half_even (Qnum x) (Zpos q * 2 ^ k) * 2 ^ k)
      else round_half_even (Qnum x * 2 ^ (- k)) (Zpos q)
           # Z.to_pos (2 ^ (- k))
  end.

(** [a - b] on floats: the exact difference, rounded. *)
Definition fl_sub (a b : Q) : Q := fl_round (a - b).

Definition ratio (count total : Z) : Q := inject_Z count / inject_Z total.

Definition is_bad_frame (f : option frame) : bool * reason :=
  match f with
  | None => (true, unreadable)
  | Some frame =>
      let h := shape_h frame in
      let w := shape_w frame in
      if (h <? MIN_DIM) || (w <? MIN_DIM) then (true, too_small w h)
      else
        let std := gray_std frame in
        if Qlt_bool std MIN_STD then (true, low_std std)
        else
          let total := h * w in
          let black_ratio := ratio (n_black frame) total in
          let white_ratio := ratio (n_white frame) total in
          if Qle_bool PERCENT_BLACK black_ratio
          then (true, mostly_black black_ratio)
          else if Qle_bool PERCENT_WHITE white_ratio
          then (true, mostly_white white_ratio)
          else
            let dom := ratio (hist_max frame) total in
            if Qle_bool DOMINANT_BIN_RATIO dom then (true, dominant_bin dom)
            else
              let left_mean := left_mean frame in
              let right_mean := right_mean frame in
              let lap_check :=
                let lap := lap_var frame in
                if Qlt_bool LAPL_VAR_MAX lap then (true, excessive_lap lap)
                else (false, no_reason) in
              if Qlt_bool HALF_DIFF_THRESH (Qabs (fl_sub left_mean right_mean))
              then
                if Qle_bool left_mean (BLACK_LEVEL + (10 # 1))
                   || Qle_bool right_mean (BLACK_LEVEL + (10 # 1))
                then (true, half_blank)
                else if Qle_bool (WHITE_LEVEL - (10 # 1)) left_mean
                        || Qle_bool (WHITE_LEVEL - (10 # 1)) right_mean
                then (true, half_white)
                else lap_check
              else lap_check
  end.

(* ===================================================================== *)
(** ** WindowComputer: [compute_window_utc] *)
(* ===================================================================== *)

Definition MINUTES_BEFORE_SUNRISE : Z := 5.
Definition FPS : Z := 24.

(** An aware datetime: the wall-clock fields and the UTC offset, in seconds,
    of the [tzinfo] attached to it. *)
Record aware : Type := mkAware {
  wall : datetime;
  utcoffset : Z
}.

(** [a.astimezone(pytz.utc).replace(tzinfo=None)] *)
Definition to_naive_utc (a : aware) : datetime :=
  dt_add_seconds (wall a) (- utcoffset a).

(** [a - timedelta(minutes = n)]: wall-clock arithmetic, same [tzinfo]. *)
Definition aware_sub_minutes (a : aware) (n : Z) : aware :=
  mkAware (dt_add_seconds (wall a) (- (n * 60))) (utcoffset a).

(** The surroundings of one run.
    - [utcnow] is what [datetime.utcnow()] reads;
    - [tz_offset_at u] is the offset of Europe/Madrid in force at the UTC
      instant [u], which [astimezone(tz)] applies;
    - [tz_attached_offset] is the offset carried by the zone object itself
      when it is attached with [replace(tzinfo=tz)];
    - [sun_sunrise d] is [sun(observer, date=d, tzinfo=...).get("sunrise")];
    - [imread p] is [cv2.imread(str(p))], [None] when the file does not
      decode. *)
Record world : Type := mkWorld {
  fs : filesystem;
  utcnow : datetime;
  tz_offset_at : datetime -> Z;
  tz_attached_offset : Z;
  sun_sunrise : date -> option aware;
  imread : str -> option frame
}.

(** [max(l)] keeps the running maximum [m] and replaces it by [x] only when
    [m < x], so it returns the first of the largest elements; [ValueError]
    on an empty sequence. *)
Definition max_step (m x : datetime) : datetime := if dt_ltb m x then x else m.

Definition py_max (l : list datetime) : result datetime :=
  match l with
  | [] => Raise ValueError
  | t :: l' => Ok (fold_left max_step l' t)
  end.

(** [min(l)], likewise. *)
Definition min_step (m x : datetime) : datetime := if dt_ltb x m then x else m.

Definition py_min (l : list datetime) : result datetime :=
  match l with
  | [] => Raise ValueError
  | t :: l' => Ok (fold_left min_step l' t)
  end.

Definition compute_window_utc (w : world) (images : list image)
  : result (datetime * datetime * aware) :=
  match images with
  | [] => Raise RuntimeError
  | _ =>
      let now_local :=
        mkAware (dt_add_seconds (utcnow w) (tz_offset_at w (utcnow w)))
                (tz_offset_at w (utcnow w)) in
      let earliest_day := date_sub_days (dt_date (wall now_local)) 7 in
      let sunrise_local :=
        match sun_sunrise w earliest_day with
        | Some s => s
        | None => mkAware (dt_combine earliest_day 6 0) (tz_attached_offset w)
        end in
      let start_local := aware_sub_minutes sunrise_local MINUTES_BEFORE_SUNRISE in
      let start_utc := to_naive_utc start_local in
      let* end_utc := py_max (map fst images) in
      Ok (start_utc, end_utc, start_local)
  end.

(* ===================================================================== *)
(** ** VideoAssembler: the body of [main] *)
(* ===================================================================== *)

(** A line printed on standard output. *)
Inductive message : Type :=
| NoImagesFound
| NoImagesInWindow
| NoValidFrames
| NoUsableFrames
| Saved
| UsedSkipped (used skipped : Z)
| FrameRange (lo hi : datetime).

(** A frame handed to [writer.write]: the decoded frame and the size it has
    when written ([cv2.resize] stretches it to the writer's size). *)
Record written : Type := mkWritten {
  wr_src : frame;
  wr_h : Z;
  wr_w : Z
}.

(** What a run that returns leaves behind: the value [main] returns, the
    lines it printed, and the frames written when a writer was opened. *)
Record outcome : Type := mkOutcome {
  exit_code : Z;
  printed : list message;
  video : option (list written)
}.

(** [window = [(ts,p) for ts,p in images if start_utc <= ts <= end_utc]] *)
Definition in_window (start_utc end_utc : datetime) (x : image) : bool :=
  dt_leb start_utc (fst x) && dt_leb (fst x) end_utc.

Definition select_window (start_utc end_utc : datetime) (images : list image)
  : list image :=
  filter (in_window start_utc end_utc) images.

(** The first loop: the first frame of the window the classifier accepts. *)
Fixpoint first_good (rd : str -> option frame) (window : list image)
  : option frame :=
  match window with
  | [] => None
  | (_, p) :: window' =>
      let f := rd (p_str p) in
      match f, fst (is_bad_frame f) with
      | Some fr, false => Some fr
      | _, _ => first_good rd window'
      end
  end.

(** The variables the second loop updates. *)
Record assembly : Type := mkAssembly {
  used : Z;
  skipped : Z;
  used_times : list datetime;
  frames : list written
}.

Definition assembly_init : assembly := mkAssembly 0 0 [] [].

(** One iteration of the second loop, for a writer of size [w] x [h]. *)
Definition assemble_step (rd : str -> option frame) (h w : Z)
  (st : assembly) (x : image) : assembly :=
  let '(ts, p) := x in
  let f := rd (p_str p) in
  match f, fst (is_bad_frame f) with
  | Some fr, false =>
      mkAssembly (used st + 1) (skipped st)
                 (used_times st ++ [ts])
                 (frames st ++ [mkWritten fr h w])
  | _, _ =>
      mkAssembly (used st) (skipped st + 1) (used_times st) (frames st)
  end.

Definition assemble (rd : str -> option frame) (h w : Z)
  (window : list image) : assembly :=
  fold_left (assemble_step rd h w) window assembly_init.

Definition main (wd : world) : result outcome :=
  let* images := gather_images (fs wd) in
  match images with
  | [] => Ok (mkOutcome 1 [NoImagesFound] None)
  | _ =>
      let* (start_utc, end_utc, start_local) := compute_window_utc wd images in
      let window := select_window start_utc end_utc images in
      match window with
      | [] => Ok (mkOutcome 1 [NoImagesInWindow] None)
      | _ =>
          match first_good (imread wd) window with
          | None => Ok (mkOutcome 1 [NoValidFrames] None)
          | Some first =>
              let h := shape_h first in
              let w := shape_w first in
              let st := assemble (imread wd) h w window in
              if used st =? 0
              then Ok (mkOutcome 1 [NoUsableFrames] (Some (frames st)))
              else
                let* lo := py_min (used_times st) in
                let* hi := py_max (used_times st) in
                Ok (mkOutcome 0
                      [Saved; UsedSkipped (used st) (skipped st);
                       FrameRange lo hi]
                      (Some (frames st)))
          end
      end
  end.

(* ===================================================================== *)
(** ** Notions used to state the properties *)
(* ===================================================================== *)

(** The files of both roots in the order the two loops of [gather_images]
    visit them: the discovery order. *)
Definition scan_order (fs : filesystem) : list path :=
  (if images_root_exists fs then images_root_rglob fs else [])
  ++ (if legacy_5min_exists fs then legacy_5min_iterdir fs else []).

(** [candidates] as it stands just before [candidates.sort]. *)
Definition discovered (fs : filesystem) : result (list image) :=
  scan [] (scan_order fs).

(** A file the gatherer keeps: a regular file with a recognized extension
    whose name yields a timestamp. *)
Definition catalogued (p : path) : bool :=
  p_is_file p && in_exts (lower (suffix p))
  && match extract_ts_from_name (p_name p) with
     | Ok ts => match truthy ts with Some _ => true | None => false end
     | Raise _ => false
     end.

Definition instant (x : image) : datetime := fst x.

Definition instant_le (x y : image) : Prop := dt_le (instant x) (instant y).

Definition same_instant (t : datetime) (x : image) : bool :=
  dt_eqb (instant x) t.

(** The day whose sunrise anchors the window: seven civil days before the
    local date of the clock reading. *)
Definition earliest_day_of (w : world) : date :=
  date_sub_days
    (dt_date (dt_add_seconds (utcnow w) (tz_offset_at w (utcnow w)))) 7.

(** The sunrise on that day, or 06:00 local when the provider has none. *)
Definition sunrise_or_default (w : world) : aware :=
  match sun_sunrise w (earliest_day_of w) with
  | Some s => s
  | None => mkAware (dt_combine (earliest_day_of w) 6 0) (tz_attached_offset w)
  end.

(** A record of the window whose file decodes to a frame the classifier
    accepts. *)
Definition accepted (rd : str -> option frame) (x : image) : bool :=
  negb (fst (is_bad_frame (rd (p_str (snd x))))).

(** The individual checks of [is_bad_frame] on a decoded frame, each with
    the condition and the reason of the source. *)
Definition check : Type := frame -> option reason.

Definition total_px (fr : frame) : Z := shape_h fr * shape_w fr.

Definition black_ratio (fr : frame) : Q := ratio (n_black fr) (total_px fr).
Definition white_ratio (fr : frame) : Q := ratio (n_white fr) (total_px fr).
Definition dom_ratio (fr : frame) : Q := ratio (hist_max fr) (total_px fr).

Definition check_too_small : check := fun fr =>
  if (shape_h fr <? MIN_DIM) || (shape_w fr <? MIN_DIM)
  then Some (too_small (shape_w fr) (shape_h fr)) else None.

Definition check_low_std : check := fun fr =>
  if Qlt_bool (gray_std fr) MIN_STD then Some (low_std (gray_std fr)) else None.

Definition check_mostly_black : check := fun fr =>
  if Qle_bool PERCENT_BLACK (black_ratio fr)
  then Some (mostly_black (black_ratio fr)) else None.

Definition check_mostly_white : check := fun fr =>
  if Qle_bool PERCENT_WHITE (white_ratio fr)
  then Some (mostly_white (white_ratio fr)) else None.

Definition check_dominant_bin : check := fun fr =>
  if Qle_bool DOMINANT_BIN_RATIO (dom_ratio fr)
  then Some (dominant_bin (dom_ratio fr)) else None.

Definition check_half : check := fun fr =>
  if Qlt_bool HALF_DIFF_THRESH (Qabs (fl_sub (left_mean fr) (right_mean fr)))
  then
    if Qle_bool (left_mean fr) (BLACK_LEVEL + (10 # 1))
       || Qle_bool (right_mean fr) (BLACK_LEVEL + (10 # 1))
    then Some half_blank
    else if Qle_bool (WHITE_LEVEL - (10 # 1)) (left_mean fr)
            || Qle_bool (WHITE_LEVEL - (10 # 1)) (right_mean fr)
    then Some half_white
    else None
  else None.

Definition check_excessive_lap : check := fun fr =>
  if Qlt_bool LAPL_VAR_MAX (lap_var fr)
  then Some (excessive_lap (lap_var fr)) else None.

(** The classifier as the specification words it: the checks in the fixed
    order too_small, low_std, mostly_black, mostly_white, dominant_bin,
    half_blank/half_white, excessive_lap after the unreadable test, the
    first failure deciding the verdict. *)
Definition spec_checks_in_order : list check :=
  [check_too_small; check_low_std; check_mostly_black; check_mostly_white;
   check_dominant_bin; check_half; check_excessive_lap].

Fixpoint first_failure (cs : list check) (fr : frame) : option reason :=
  match cs with
  | [] => None
  | c :: cs' =>
      match c fr with
      | Some r => Some r
      | None => first_failure cs' fr
      end
  end.

Definition spec_classify (f : option frame) : bool * reason :=
  match f with
  | None => (true, unreadable)
  | Some fr =>
      match first_failure spec_checks_in_order fr with
      | Some r => (true, r)
      | None => (false, no_reason)
      end
  end.

(** A decoded frame that passes checks 1 to 3 and so reaches check 4. *)
Definition reaches_check_4 (fr : frame) : bool :=
  negb ((shape_h fr <? MIN_DIM) || (shape_w fr <? MIN_DIM))
  && negb (Qlt_bool (gray_std fr) MIN_STD).

Definition is_mostly_black (r : reason) : bool :=
  match r with mostly_black _ => true | _ => false end.

Definition is_excessive_lap (r : reason) : bool :=
  match r with excessive_lap _ => true | _ => false end.

Definition near_black (fr : frame) : bool :=
  Qle_bool PERCENT_BLACK (black_ratio fr).

Definition lap_above_bound (fr : frame) : bool :=
  Qlt_bool LAPL_VAR_MAX (lap_var fr).

(* ===================================================================== *)
(** ** Sample data for worked runs *)
(* ===================================================================== *)

Definition file_in (dir name : string) : path :=
  mkPath (lit name) (lit (dir ++ "/" ++ name)) true.

(** A daylight frame: 640x480, well spread intensities. *)
Definition daylight_frame : frame :=
  mkFrame 480 640 (40 # 1) 20000 15000 9000 (120 # 1) (115 # 1) (350 # 1).

(** A flat gray frame: standard deviation 0. *)
Definition flat_frame : frame :=
  mkFrame 480 640 (0 # 1) 0 0 307200 (128 # 1) (128 # 1) (0 # 1).

(** A 100x100 frame with exactly 5500 of its 10000 pixels at or below the
    black level. *)
Definition frame_black_at_ratio : frame :=
  mkFrame 100 100 (90 # 1) 5500 3000 2000 (100 # 1) (110 # 1) (500 # 1).

(** The 3x3 checkerboard with black corners: pixels 0 and 255, five of
    the nine at 0.  Under the reflected border every Laplacian value is
    1020 or -1020 (five and four of them), so the variance is
    1040400 * 80 / 81; the standard deviation is 126.71 to two places. *)
Definition checkerboard_3x3 : frame :=
  mkFrame 3 3 (12671 # 100) 5 4 5 (85 # 1) (255 # 2) (9248000 # 9).

(** A 640x480 frame whose half means are the doubles nearest to 254/3 and
    74/3: their exact difference is just above 60 and the float difference
    is 60. *)
Definition frame_half_diff_60 : frame :=
  mkFrame 480 640 (45 # 1) 100000 2000 9000
          (fl_round (254 # 3)) (fl_round (74 # 3)) (400 # 1).

(** A run in summer time: offset +2h throughout, sunrise reported at 07:05
    local time on whatever day is asked. *)
Definition sample_world (images legacy : list path) (now : datetime)
  (rd : str -> option frame) : world :=
  mkWorld (mkFs true images true legacy) now
          (fun _ => 7200) (-900)
          (fun d => Some (mkAware (dt_combine d 7 5) 7200))
          rd.

Definition sample_now : datetime := mkDatetime 2025 7 15 12 0 0 0.

Definition sample_images : list path :=
  [file_in "images/w29" "a_20250712_100000.jpg";
   file_in "images/w29" "b_250711_090000.PNG";
   file_in "images/w29" "c_20250712_100000.jpg";
   file_in "images/w29" "notes.txt";
   file_in "images/w29" "nodate.jpg"].

Definition sample_legacy : list path :=
  [file_in "images_5min" "d_250711_090000.jpg"].

(** Decoding in the sample run: [b] is a flat frame, every other file a
    daylight frame. *)
Definition sample_imread (p : str) : option frame :=
  if str_eqb p (lit "images/w29/b_250711_090000.PNG") then Some flat_frame
  else Some daylight_frame.

(** An archive whose latest capture is from 1 January 2024. *)
Definition stale_images : list path :=
  [file_in "images/w01" "cam_20240101_120000.jpg"].

(** An archive holding one file whose token has month 13. *)
Definition bad_month_images : list path :=
  [file_in "images/w29" "a_20250712_100000.jpg";
   file_in "images/w29" "cam_20251301_120000.jpg"].

(* ===================================================================== *)
(** ** The output name of [main] *)
(* ===================================================================== *)

Definition digit_char (k : Z) : ascii := ascii_of_N (Z.to_N (48 + k)).

(** A number below 100 with the directives [%m], [%d], [%H], [%M], [%S]:
    two digits, zero-padded. *)
Definition fmt2 (n : Z) : str := [digit_char (n / 10); digit_char (n mod 10)].

(** A year from 1000 to 9999 with [%Y]: its four digits. *)
Definition fmt4 (n : Z) : str :=
  [digit_char (n / 1000); digit_char ((n / 100) mod 10);
   digit_char ((n / 10) mod 10); digit_char (n mod 10)].

(** [t.strftime('%Y%m%d_%H%M%S')] *)
Definition strftime_Ymd_HMS (t : datetime) : str :=
  fmt4 (year t) ++ fmt2 (month t) ++ fmt2 (day t) ++ [underscore]
  ++ fmt2 (hour t) ++ fmt2 (minute t) ++ fmt2 (second t).

(** [out_name] of [main]; [FPS] is 24 and prints as its two digits. *)
Definition out_name (start_local : aware) (end_utc : datetime) : str :=
  lit "timelapse_last7days_" ++ strftime_Ymd_HMS (wall start_local)
  ++ [underscore] ++ strftime_Ymd_HMS end_utc
  ++ [underscore] ++ fmt2 FPS ++ lit "fps.mp4".

(** The calendar test of [datetime(...)] on the six numbers of a token. *)
Definition token_fields_ok (yy mm dd hh mi ss : Z) : Prop :=
  1 <= mm <= 12 /\ 1 <= dd <= _days_in_month (2000 + yy) mm
  /\ hh <= 23 /\ mi <= 59 /\ ss <= 59.

(** A record whose frame is rejected, decode failures included. *)
Definition rejected (rd : str -> option frame) (x : image) : bool :=
  negb (accepted rd x).

Definition at_or_after (s : datetime) (x : image) : bool :=
  dt_leb s (instant x).

(** What one iteration of the assembly loop hands to the writer. *)
Definition written_of (rd : str -> option frame) (h w : Z) (x : image)
  : list written :=
  match rd (p_str (snd x)) with
  | Some fr => if fst (is_bad_frame (Some fr)) then [] else [mkWritten fr h w]
  | None => []
  end.

Definition has_size (h w : Z) (wr : written) : Prop :=
  wr_h wr = h /\ wr_w wr = w.

Definition before (s : datetime) (x : image) : Prop :=
  dt_ltb (instant x) s = true.

(** The two halves of a frame as check 7 sees them: their means differ by
    more than the threshold and one of them is near black or near white. *)
Definition halves_tolerated (fr : frame) : Prop :=
  (Qabs (fl_sub (left_mean fr) (right_mean fr)) <= HALF_DIFF_THRESH)%Q
  \/ ((BLACK_LEVEL + (10 # 1) < left_mean fr)%Q
      /\ (BLACK_LEVEL + (10 # 1) < right_mean fr)%Q
      /\ (left_mean fr < WHITE_LEVEL - (10 # 1))%Q
      /\ (right_mean fr < WHITE_LEVEL - (10 # 1))%Q).

(* ===================================================================== *)
(** ** The gallery viewer (the script for the page) *)
(* ===================================================================== *)

(** The viewer keeps its state in module-level variables and in a few page
    elements.  The state below holds the variables and, of the page, what
    the functions modelled here read back: the slider's [max] and [value],
    the [src] of the image element and whether the loading badge shows.
    Numbers are integers.  The browser owns the clock and the frame
    callbacks: [applyShow] and [tickForward] are functions it calls.
    Whether a cached image has finished loading is asked of [complete].
    A function that can hit a [TypeError] (reading a property of
    [undefined]) returns [Throw] with the state as it is at that point. *)
Module Viewer.

Record img : Type := mkImg { raw : str }.

(** An entry of [manifest.weeks]; [wk_images] is [None] when the entry has
    no [images] property. *)
Record week : Type := mkWeek {
  label : str;
  wk_images : option (list img)
}.

Record state : Type := mkState {
  weeks : list week;
  weekIndex : Z;
  images : list img;
  pendingIndex : option Z;
  rafId : bool;
  raf_requests : nat;
  cache : list str;
  playing : bool;
  slider_max : Z;
  slider_value : Z;
  img_src : option str;
  loading : bool
}.

Inductive js (A : Type) : Type :=
| Return (a : A)
| Throw (a : A).

Arguments Return {A} a.
Arguments Throw {A} a.

Definition prefetchRadius : Z := 4.

(** [arr[i]]: [undefined] outside the array. *)
Definition index {A : Type} (arr : list A) (i : Z) : option A :=
  if i <? 0 then None else nth_error arr (Z.to_nat i).

Definition len {A : Type} (arr : list A) : Z := Z.of_nat (List.length arr).

(** [wk.images || []] *)
Definition week_images (wk : week) : list img :=
  match wk_images wk with
  | Some l => l
  | None => []
  end.

Definition cache_has (url : str) (c : list str) : bool :=
  existsb (str_eqb url) c.

(** [if (!cache.has(url)) cache.set(url, im)] *)
Definition cache_add (url : str) (c : list str) : list str :=
  if cache_has url c then c else c ++ [url].

(** The [for] loop of [prefetchAround], [n] iterations from index [i]. *)
Fixpoint prefetch_loop (n : nat) (i : Z) (imgs : list img) (c : list str)
  : option (list str) :=
  match n with
  | O => Some c
  | S n' =>
      match index imgs i with
      | None => None
      | Some im => prefetch_loop n' (i + 1) imgs (cache_add (raw im) c)
      end
  end.

Definition prefetchAround (idx : Z) (st : state) : js state :=
  match images st with
  | [] => Return st
  | _ =>
      let lo := Z.max 0 (idx - prefetchRadius) in
      let hi := Z.min (len (images st) - 1) (idx + prefetchRadius) in
      match prefetch_loop (Z.to_nat (hi - lo + 1)) lo (images st) (cache st)
      with
      | Some c =>
          Return (mkState (weeks st) (weekIndex st) (images st)
                    (pendingIndex st) (rafId st) (raf_requests st) c
                    (playing st) (slider_max st) (slider_value st)
                    (img_src st) (loading st))
      | None => Throw st
      end
  end.

Definition requestShow (i : Z) (st : state) : state :=
  mkState (weeks st) (weekIndex st) (images st) (Some i)
          true (if rafId st then raf_requests st else S (raf_requests st))
          (cache st) (playing st) (slider_max st) (slider_value st)
          (img_src st) (loading st).

(** The index [applyShow] settles on. *)
Definition clamp_index (p : Z) (st : state) : Z :=
  Z.min (Z.max 0 p) (len (images st) - 1).

Definition applyShow (complete : str -> bool) (st : state) : js state :=
  let st0 :=
    mkState (weeks st) (weekIndex st) (images st) (pendingIndex st)
            false (raf_requests st) (cache st) (playing st)
            (slider_max st) (slider_value st) (img_src st) (loading st) in
  match pendingIndex st0 with
  | None => Return st0
  | Some p =>
      let idx := clamp_index p st0 in
      match index (images st0) idx with
      | None => Throw st0
      | Some im =>
          let url := raw im in
          let st1 :=
            if cache_has url (cache st0) && complete url then
              mkState (weeks st0) (weekIndex st0) (images st0)
                      (pendingIndex st0) (rafId st0) (raf_requests st0)
                      (cache st0) (playing st0) (slider_max st0)
                      (slider_value st0) (Some url) false
            else
              mkState (weeks st0) (weekIndex st0) (images st0)
                      (pendingIndex st0) (rafId st0) (raf_requests st0)
                      (cache st0) (playing st0) (slider_max st0)
                      (slider_value st0) (img_src st0) true in
          prefetchAround idx st1
      end
  end.

Definition loadWeek (i : Z) (st : state) : js state :=
  match index (weeks st) i with
  | None => Throw st
  | Some wk =>
      let imgs := week_images wk in
      let st1 :=
        mkState (weeks st) (weekIndex st) imgs (pendingIndex st)
                (rafId st) (raf_requests st) [] (playing st)
                (Z.max 1 (len imgs)) 1 (img_src st) (loading st) in
      match imgs with
      | [] =>
          Return (mkState (weeks st1) (weekIndex st1) (images st1)
                    (pendingIndex st1) (rafId st1) (raf_requests st1)
                    (cache st1) (playing st1) (slider_max st1)
                    (slider_value st1) None (loading st1))
      | _ => Return (requestShow 0 st1)
      end
  end.

Definition set_slider_value (v : Z) (st : state) : state :=
  mkState (weeks st) (weekIndex st) (images st) (pendingIndex st)
          (rafId st) (raf_requests st) (cache st) (playing st)
          (slider_max st) v (img_src st) (loading st).

Definition set_weekIndex (i : Z) (st : state) : state :=
  mkState (weeks st) i (images st) (pendingIndex st)
          (rafId st) (raf_requests st) (cache st) (playing st)
          (slider_max st) (slider_value st) (img_src st) (loading st).

Definition tickForward (st : state) : js state :=
  match images st with
  | [] => Return st
  | _ =>
      let idx := slider_value st - 1 + 1 in
      if len (images st) <=? idx then
        let st1 :=
          set_weekIndex ((weekIndex st + 1) mod len (weeks st)) st in
        match loadWeek (weekIndex st1) st1 with
        | Throw st2 => Throw st2
        | Return st2 => Return (requestShow 0 (set_slider_value (0 + 1) st2))
        end
      else Return (requestShow idx (set_slider_value (idx + 1) st))
  end.

(** [stopPlayback], as far as the state goes. *)
Definition stopPlayback (st : state) : state :=
  mkState (weeks st) (weekIndex st) (images st) (pendingIndex st)
          (rafId st) (raf_requests st) (cache st) false
          (slider_max st) (slider_value st) (img_src st) (loading st).

(** The [keydown] handler on ArrowLeft and on ArrowRight. *)
Definition key_left (st : state) : state :=
  match images st with
  | [] => st
  | _ =>
      let st1 := stopPlayback st in
      let st2 := set_slider_value (Z.max 1 (slider_value st1 - 1)) st1 in
      requestShow (slider_value st2 - 1) st2
  end.

Definition key_right (st : state) : state :=
  match images st with
  | [] => st
  | _ =>
      let st1 := stopPlayback st in
      let st2 :=
        set_slider_value (Z.min (slider_max st1) (slider_value st1 + 1)) st1 in
      requestShow (slider_value st2 - 1) st2
  end.

(** The state after a week has been loaded and between events: the week
    index points into the manifest, [images] is that week's list, the
    slider's maximum is [max(1, images.length)] and its value lies between
    1 and the maximum. *)
Definition consistent (st : state) : Prop :=
  (exists wk, index (weeks st) (weekIndex st) = Some wk
              /\ images st = week_images wk)
  /\ slider_max st = Z.max 1 (len (images st))
  /\ 1 <= slider_value st <= slider_max st.

(** A sample manifest: a week of three images, a week without images and a
    week of one image. *)
Definition sample_weeks : list week :=
  [mkWeek (lit "Week 01")
     (Some [mkImg (lit "w1/a.jpg"); mkImg (lit "w1/b.jpg");
            mkImg (lit "w1/c.jpg")]);
   mkWeek (lit "Week 02") None;
   mkWeek (lit "Week 03") (Some [mkImg (lit "w3/a.jpg")])].

Definition initial (ws : list week) : state :=
  mkState ws 0 [] None false 0 [] false 1 1 None false.

End Viewer.

(* ===================================================================== *)
(** ** The order on instants *)
(* ===================================================================== *)

Section InstantOrder.

Lemma tuple_cmp_refl (a : list Z) : tuple_cmp a a = Eq.
Proof.
  induction a as [|x a IH]; simpl; [reflexivity|].
  now rewrite Z.compare_refl.
Qed.

Lemma tuple_cmp_eq (a b : list Z) : tuple_cmp a b = Eq -> a = b.
Proof.
  revert b; induction a as [|x a IH]; intros [|y b]; simpl; try discriminate.
  - reflexivity.
  - destruct (Z.compare_spec x y) as [->| |]; try discriminate.
    intros H; f_equal; auto.
Qed.

Lemma tuple_cmp_opp (a b : list Z) :
  tuple_cmp b a = CompOpp (tuple_cmp a b).
Proof.
  revert b; induction a as [|x a IH]; intros [|y b]; simpl; try reflexivity.
  rewrite (Z.compare_antisym x y).
  destruct (x ?= y); simpl; auto.
Qed.

Lemma tuple_cmp_lt_trans (a b c : list Z) :
  tuple_cmp a b = Lt -> tuple_cmp b c = Lt -> tuple_cmp a c = Lt.
Proof.
  revert b c; induction a as [|x a IH]; intros [|y b] [|z c]; simpl;
    try discriminate; try reflexivity.
  destruct (Z.compare_spec x y), (Z.compare_spec y z); try discriminate;
    subst; intros H1 H2.
  - rewrite Z.compare_refl; eauto.
  - now apply Z.compare_lt_iff in H0 as ->.
  - now apply Z.compare_lt_iff in H as ->.
  - assert (x < z) as ->%Z.compare_lt_iff by lia; reflexivity.
Qed.

Lemma dt_fields_inj (a b : datetime) : dt_fields a = dt_fields b -> a = b.
Proof.
  destruct a, b; unfold dt_fields; simpl; intros H.
  now inversion H.
Qed.

Lemma dt_cmp_eq (a b : datetime) : dt_cmp a b = Eq <-> a = b.
Proof.
  unfold dt_cmp; split.
  - intros H; apply dt_fields_inj, tuple_cmp_eq, H.
  - intros ->; apply tuple_cmp_refl.
Qed.

Lemma dt_leb_refl (a : datetime) : dt_leb a a = true.
Proof. unfold dt_leb, dt_cmp; now rewrite tuple_cmp_refl. Qed.

Lemma dt_ltb_leb (a b : datetime) : dt_ltb a b = negb (dt_leb b a).
Proof.
  unfold dt_ltb, dt_leb, dt_cmp.
  rewrite (tuple_cmp_opp (dt_fields a) (dt_fields b)).
  destruct (tuple_cmp (dt_fields a) (dt_fields b)); reflexivity.
Qed.

Lemma dt_ltb_incl (a b : datetime) : dt_ltb a b = true -> dt_leb a b = true.
Proof. unfold dt_ltb, dt_leb; destruct (dt_cmp a b); auto. Qed.

Lemma dt_leb_total (a b : datetime) : dt_leb a b = true \/ dt_leb b a = true.
Proof.
  destruct (dt_leb b a) eqn:E; [now right|left].
  apply dt_ltb_incl. now rewrite dt_ltb_leb, E.
Qed.

Lemma dt_leb_trans (a b c : datetime) :
  dt_leb a b = true -> dt_leb b c = true -> dt_leb a c = true.
Proof.
  unfold dt_leb, dt_cmp.
  destruct (tuple_cmp (dt_fields a) (dt_fields b)) eqn:E1; try discriminate;
    destruct (tuple_cmp (dt_fields b) (dt_fields c)) eqn:E2; try discriminate;
    intros _ _.
  - apply tuple_cmp_eq in E1; rewrite E1, E2; reflexivity.
  - apply tuple_cmp_eq in E1; rewrite E1, E2; reflexivity.
  - apply tuple_cmp_eq in E2; rewrite <- E2, E1; reflexivity.
  - now rewrite (tuple_cmp_lt_trans _ _ _ E1 E2).
Qed.

Lemma dt_leb_antisym (a b : datetime) :
  dt_leb a b = true -> dt_leb b a = true -> a = b.
Proof.
  unfold dt_leb; intros H1 H2. apply dt_cmp_eq.
  unfold dt_cmp in *.
  rewrite (tuple_cmp_opp (dt_fields a) (dt_fields b)) in H2.
  destruct (tuple_cmp (dt_fields a) (dt_fields b)); simpl in *;
    congruence.
Qed.

End InstantOrder.

Lemma dt_eqb_eq (a b : datetime) : dt_eqb a b = true <-> a = b.
Proof.
  unfold dt_eqb; rewrite <- dt_cmp_eq.
  destruct (dt_cmp a b); split; congruence.
Qed.

Lemma dt_ltb_neq (a b : datetime) : dt_ltb a b = true -> dt_eqb a b = false.
Proof. unfold dt_ltb, dt_eqb; destruct (dt_cmp a b); congruence. Qed.

(* ===================================================================== *)
(** ** [py_max] *)
(* ===================================================================== *)

Lemma fold_max_ge_init (l : list datetime) (t : datetime) :
  dt_leb t (fold_left max_step l t) = true.
Proof.
  revert t; induction l as [|x l IH]; intros t; simpl.
  - apply dt_leb_refl.
  - unfold max_step at 2. destruct (dt_ltb t x) eqn:E.
    + eapply dt_leb_trans; [apply dt_ltb_incl, E | apply IH].
    + apply IH.
Qed.

Lemma fold_max_upper (l : list datetime) (t x : datetime) :
  In x (t :: l) -> dt_leb x (fold_left max_step l t) = true.
Proof.
  revert t; induction l as [|y l IH]; intros t [<-|H]; simpl.
  - apply dt_leb_refl.
  - destruct H.
  - apply (fold_max_ge_init (y :: l)).
  - destruct H as [<-|H].
    + eapply dt_leb_trans; [|apply fold_max_ge_init].
      unfold max_step. destruct (dt_ltb t y) eqn:E; [apply dt_leb_refl|].
      rewrite dt_ltb_leb in E. now destruct (dt_leb y t).
    + apply IH. now right.
Qed.

Lemma fold_max_in (l : list datetime) (t : datetime) :
  In (fold_left max_step l t) (t :: l).
Proof.
  revert t; induction l as [|y l IH]; intros t; simpl.
  - now left.
  - specialize (IH (max_step t y)). destruct IH as [H|H].
    + rewrite <- H. unfold max_step. destruct (dt_ltb t y); auto.
    + auto.
Qed.

(** [py_max] returns on every non-empty list, and returns an upper bound
    that occurs in the list. *)
Lemma py_max_spec (l : list datetime) :
  l <> [] ->
  exists m, py_max l = Ok m /\ In m l
            /\ (forall x, In x l -> dt_leb x m = true).
Proof.
  destruct l as [|t l]; [congruence|intros _].
  exists (fold_left max_step l t). split; [reflexivity|]. split.
  - apply fold_max_in.
  - intros x Hx. now apply fold_max_upper.
Qed.

(* ===================================================================== *)
(** ** The sort of the gatherer *)
(* ===================================================================== *)

Section StableSort.

Lemma insert_by_key_perm (x : image) (l : list image) :
  Permutation (x :: l) (insert_by_key x l).
Proof.
  induction l as [|y l IH]; simpl; [reflexivity|].
  destruct (dt_ltb (fst y) (fst x)); [|reflexivity].
  rewrite perm_swap. now apply perm_skip.
Qed.

Lemma sort_by_key_perm (l : list image) : Permutation l (sort_by_key l).
Proof.
  induction l as [|x l IH]; simpl; [reflexivity|].
  rewrite <- insert_by_key_perm. now apply perm_skip.
Qed.

Lemma insert_by_key_sorted (x : image) (l : list image) :
  StronglySorted instant_le l ->
  StronglySorted instant_le (insert_by_key x l).
Proof.
  induction 1 as [|y l Hs IH Hall]; simpl.
  - repeat constructor.
  - destruct (dt_ltb (fst y) (fst x)) eqn:E.
    + constructor; [exact IH|].
      eapply Permutation_Forall; [apply insert_by_key_perm|].
      constructor; [|exact Hall].
      apply dt_ltb_incl, E.
    + assert (Hxy : instant_le x y).
      { unfold instant_le, dt_le, instant.
        rewrite dt_ltb_leb in E. now destruct (dt_leb (fst x) (fst y)). }
      constructor; [now constructor|].
      constructor; [exact Hxy|].
      eapply Forall_impl; [|exact Hall].
      intros z Hz. unfold instant_le, dt_le in *.
      eapply dt_leb_trans; eauto.
Qed.

Lemma sort_by_key_sorted (l : list image) :
  StronglySorted instant_le (sort_by_key l).
Proof.
  induction l as [|x l IH]; simpl; [constructor|].
  now apply insert_by_key_sorted.
Qed.

(** Insertion never moves an element past one with the same instant. *)
Lemma filter_insert_by_key (t : datetime) (x : image) (l : list image) :
  filter (same_instant t) (insert_by_key x l)
  = filter (same_instant t) (x :: l).
Proof.
  induction l as [|y l IH]; [reflexivity|].
  simpl insert_by_key.
  destruct (dt_ltb (fst y) (fst x)) eqn:E; [|reflexivity].
  cbn [filter] in *. rewrite IH.
  destruct (same_instant t x) eqn:Ex; [|reflexivity].
  destruct (same_instant t y) eqn:Ey; [|reflexivity].
  exfalso. unfold same_instant, instant in *.
  apply dt_eqb_eq in Ex, Ey. apply dt_ltb_neq in E.
  rewrite Ex, Ey in E.
  assert (dt_eqb t t = true) by now apply dt_eqb_eq.
  congruence.
Qed.

Lemma sort_by_key_stable (t : datetime) (l : list image) :
  filter (same_instant t) (sort_by_key l) = filter (same_instant t) l.
Proof.
  induction l as [|x l IH]; [reflexivity|].
  simpl sort_by_key. rewrite filter_insert_by_key.
  cbn [filter]. now rewrite IH.
Qed.

End StableSort.

(* ===================================================================== *)
(** ** The scan loops *)
(* ===================================================================== *)

Lemma scan_app (acc : list image) (a b : list path) :
  scan acc (a ++ b) = let* c := scan acc a in scan c b.
Proof.
  revert acc; induction a as [|p a IH]; intros acc; simpl; [reflexivity|].
  destruct (scan_one acc p); simpl; [apply IH|reflexivity].
Qed.

Lemma gather_images_discovered (fs : filesystem) :
  gather_images fs = let* c := discovered fs in Ok (sort_by_key c).
Proof.
  unfold gather_images, discovered, scan_order. rewrite scan_app.
  destruct (images_root_exists fs), (legacy_5min_exists fs); simpl;
    try reflexivity.
  - destruct (scan [] (images_root_rglob fs)); reflexivity.
  - destruct (scan [] (images_root_rglob fs)); reflexivity.
Qed.

Lemma scan_one_paths (acc c : list image) (p : path) :
  scan_one acc p = Ok c ->
  map snd c = map snd acc ++ (if catalogued p then [p] else []).
Proof.
  unfold scan_one, catalogued.
  destruct (p_is_file p && in_exts (lower (suffix p))); simpl.
  - destruct (extract_ts_from_name (p_name p)) as [ts|e]; simpl;
      [|discriminate].
    destruct (truthy ts) as [tsYY|].
    + destruct (ts_to_datetime_utc tsYY) as [t|e]; simpl; [|discriminate].
      intros [= <-]. now rewrite map_app.
    + intros [= <-]. now rewrite app_nil_r.
  - intros [= <-]. now rewrite app_nil_r.
Qed.

Lemma scan_paths (ps : list path) (acc c : list image) :
  scan acc ps = Ok c ->
  map snd c = map snd acc ++ filter catalogued ps.
Proof.
  revert acc; induction ps as [|p ps IH]; intros acc; simpl.
  - intros [= <-]. now rewrite app_nil_r.
  - destruct (scan_one acc p) as [acc'|e] eqn:E; simpl; [|discriminate].
    intros H. rewrite (IH _ H), (scan_one_paths _ _ _ E), <- app_assoc.
    now destruct (catalogued p).
Qed.

(* ===================================================================== *)
(** ** Tokens and the two patterns *)
(* ===================================================================== *)

Section Patterns.

Lemma digit_not_underscore (c : ascii) :
  is_digit c = true -> Ascii.eqb c underscore = false.
Proof.
  intros H. apply Ascii.eqb_neq. intros ->. discriminate H.
Qed.

Lemma eat_digits_spec (n : nat) (s r : str) :
  eat_digits n s = Some r ->
  exists ds, s = ds ++ r /\ List.length ds = n /\ all_digits ds = true.
Proof.
  revert s; induction n as [|n IH]; intros s; simpl.
  - intros [= ->]. now exists [].
  - destruct s as [|c s]; [discriminate|].
    destruct (is_digit c) eqn:E; [|discriminate].
    intros H. destruct (IH _ H) as (ds & -> & Hl & Hd).
    exists (c :: ds). simpl. rewrite E, Hl, Hd. auto.
Qed.

Lemma eat_digits_app (ds r : str) :
  all_digits ds = true -> eat_digits (List.length ds) (ds ++ r) = Some r.
Proof.
  induction ds as [|c ds IH]; simpl; [reflexivity|].
  intros [-> H]%andb_prop. auto.
Qed.

(** A shorter run of digits stopped by a non-digit does not match. *)
Lemma eat_digits_stop (n : nat) (ds : str) (c : ascii) (r : str) :
  all_digits ds = true -> (List.length ds < n)%nat -> is_digit c = false ->
  eat_digits n (ds ++ c :: r) = None.
Proof.
  revert n; induction ds as [|d ds IH]; intros n Hd Hl Hc; simpl in *.
  - destruct n; [lia|]. simpl. now rewrite Hc.
  - destruct n; [lia|]. simpl.
    apply andb_prop in Hd as [-> Hd]. apply IH; auto. lia.
Qed.

Lemma match_here_spec (nd : nat) (s g : str) :
  match_here nd s = Some g ->
  is_token nd g /\ exists rest, s = g ++ rest.
Proof.
  unfold match_here.
  destruct (eat_digits nd s) as [[|c r]|] eqn:E1; try discriminate.
  destruct (is_underscore c) eqn:Eu; [|discriminate].
  destruct (eat_digits 6 r) as [rest|] eqn:E2; [|discriminate].
  intros [= <-].
  apply eat_digits_spec in E1 as (ds & -> & Hl & Hd).
  apply eat_digits_spec in E2 as (ts & -> & Hl6 & Hd6).
  apply Ascii.eqb_eq in Eu as ->.
  assert (Hg : firstn (nd + 7) (ds ++ underscore :: ts ++ rest)
               = ds ++ underscore :: ts).
  { replace (ds ++ underscore :: ts ++ rest)
      with ((ds ++ underscore :: ts) ++ rest)
      by (rewrite <- app_assoc; reflexivity).
    rewrite firstn_app.
    replace (nd + 7 - List.length (ds ++ underscore :: ts))%nat with O
      by (rewrite length_app; simpl; lia).
    rewrite firstn_all2 by (rewrite length_app; simpl; lia).
    simpl. now rewrite app_nil_r. }
  rewrite Hg. split.
  - exists ds, ts. auto.
  - exists rest. rewrite <- app_assoc. reflexivity.
Qed.

Lemma match_here_token (nd : nat) (g rest : str) :
  is_token nd g -> match_here nd (g ++ rest) = Some g.
Proof.
  intros (ds & ts & -> & Hl & Hl6 & Hd & Hd6).
  unfold match_here.
  rewrite <- app_assoc, <- Hl, (eat_digits_app ds _ Hd).
  simpl app. unfold is_underscore. rewrite Ascii.eqb_refl.
  change 6%nat with (List.length ts) at 1 || rewrite <- Hl6.
  rewrite (eat_digits_app ts rest Hd6).
  replace (ds ++ underscore :: ts ++ rest)
    with ((ds ++ underscore :: ts) ++ rest)
    by (rewrite <- app_assoc; reflexivity).
  rewrite firstn_app.
  rewrite firstn_all2 by (rewrite length_app; simpl; lia).
  match goal with
  | |- context [firstn ?k rest] =>
      replace k with O by (rewrite length_app; simpl; lia)
  end.
  simpl. now rewrite app_nil_r.
Qed.

Lemma match_here_short (nd : nat) (s : str) :
  (List.length s < nd + 7)%nat -> match_here nd s = None.
Proof.
  intros Hl. destruct (match_here nd s) as [g|] eqn:E; [|reflexivity].
  apply match_here_spec in E
    as ((ds & ts & -> & Hd & Ht & _) & rest & ->).
  rewrite !length_app in Hl. simpl in Hl. lia.
Qed.

Lemma pat_search_short (nd : nat) (s : str) :
  (List.length s < nd + 7)%nat -> pat_search nd s = None.
Proof.
  induction s as [|c s IH]; intros Hl; simpl pat_search;
    rewrite (match_here_short nd _ Hl); [reflexivity|].
  apply IH. simpl in Hl. lia.
Qed.

Lemma pat_search_spec (nd : nat) (s g : str) :
  pat_search nd s = Some g ->
  is_token nd g /\ exists pre rest, s = pre ++ g ++ rest.
Proof.
  induction s as [|c s IH]; simpl pat_search.
  - destruct (match_here nd []) eqn:E; [|discriminate].
    intros [= ->]. apply match_here_spec in E as [Ht [rest Hr]].
    split; [exact Ht|]. now exists [], rest.
  - destruct (match_here nd (c :: s)) eqn:E.
    + intros [= ->]. apply match_here_spec in E as [Ht [rest Hr]].
      split; [exact Ht|]. now exists [], rest.
    + intros H. destruct (IH H) as [Ht (pre & rest & ->)].
      split; [exact Ht|]. now exists (c :: pre), rest.
Qed.

Lemma pat_search_token (nd : nat) (g : str) :
  is_token nd g -> pat_search nd g = Some g.
Proof.
  intros Ht. pose proof (match_here_token nd g [] Ht) as H.
  rewrite app_nil_r in H.
  destruct g; simpl; now rewrite H.
Qed.

Lemma pat_search_none (nd : nat) (s : str) :
  pat_search nd s = None <->
  forall pre g rest, s = pre ++ g ++ rest -> ~ is_token nd g.
Proof.
  split.
  - induction s as [|c s IH]; simpl pat_search.
    + destruct (match_here nd []) eqn:E; [discriminate|].
      intros _ pre g rest Hs Ht.
      symmetry in Hs. apply app_eq_nil in Hs as [-> Hs].
      apply app_eq_nil in Hs as [-> ->].
      pose proof (match_here_token nd [] [] Ht) as E'. simpl in E'.
      congruence.
    + destruct (match_here nd (c :: s)) eqn:E; [discriminate|].
      intros H pre g rest Hs Ht.
      destruct pre as [|c' pre]; simpl in Hs.
      * rewrite Hs, (match_here_token nd g rest Ht) in E. discriminate.
      * injection Hs as -> ->. eapply IH; eauto.
  - intros H. destruct (pat_search nd s) as [g|] eqn:E; [|reflexivity].
    apply pat_search_spec in E as [Ht (pre & rest & ->)].
    exfalso. eapply H; eauto.
Qed.

(** A name contains a token exactly when the search finds one. *)
Lemma pat_search_finds_iff (nd : nat) (s : str) :
  (exists pre g rest, s = pre ++ g ++ rest /\ is_token nd g)
  <-> exists g, pat_search nd s = Some g.
Proof.
  split.
  - intros (pre & g & rest & Hs & Ht).
    destruct (pat_search nd s) as [g'|] eqn:E; [now exists g'|].
    exfalso. eapply pat_search_none; eauto.
  - intros (g & H). apply pat_search_spec in H as [Ht (pre & rest & ->)].
    now exists pre, g, rest.
Qed.

End Patterns.

(* ===================================================================== *)
(** ** The codec on tokens *)
(* ===================================================================== *)

Section Codec.

Lemma digit_value_range (c : ascii) :
  is_digit c = true -> 0 <= digit_value c <= 9.
Proof.
  unfold is_digit, digit_value.
  intros [H1 H2]%andb_prop.
  apply N.leb_le in H1, H2. lia.
Qed.

Lemma py_int_two_digits (a b : ascii) :
  is_digit a = true -> is_digit b = true ->
  py_int [a; b] = Ok (10 * digit_value a + digit_value b).
Proof.
  intros Ha Hb. unfold py_int, all_digits. simpl.
  rewrite Ha, Hb. simpl. reflexivity || (f_equal; lia).
Qed.

Lemma split_on_digits (ts : str) :
  all_digits ts = true -> split_on underscore ts = [ts].
Proof.
  induction ts as [|c ts IH]; [reflexivity|].
  cbn [all_digits forallb split_on].
  intros [Hc Hd]%andb_prop.
  now rewrite (digit_not_underscore c Hc), (IH Hd).
Qed.

Lemma split_on_token (ds ts : str) :
  all_digits ds = true -> all_digits ts = true ->
  split_on underscore (ds ++ underscore :: ts) = [ds; ts].
Proof.
  intros Hd Ht. induction ds as [|c ds IH]; cbn [app split_on].
  - rewrite Ascii.eqb_refl. now rewrite (split_on_digits ts Ht).
  - simpl in Hd. apply andb_prop in Hd as [Hc Hd].
    now rewrite (digit_not_underscore c Hc), (IH Hd).
Qed.

(** The 6-digit form of an 8-digit token is a 6-digit token. *)
Lemma six_form_token (g : str) : is_token 8 g -> is_token 6 (skipn 2 g).
Proof.
  intros (ds & ts & -> & Hl & Hl6 & Hd & Ht).
  do 8 (destruct ds as [|? ds]; [discriminate Hl|]).
  destruct ds; [|discriminate Hl].
  simpl in Hd. repeat (apply andb_prop in Hd as [? Hd]).
  eexists [_; _; _; _; _; _], ts. simpl.
  repeat split; auto.
  repeat (apply andb_true_intro; split; auto).
Qed.

(** On a name with an 8-digit token the extractor returns the token
    without its first two digits. *)
Lemma extract_of_PAT_8 (name g : str) :
  PAT_8 name = Some g ->
  extract_ts_from_name name = Ok (Some (skipn 2 g)).
Proof.
  intros H. unfold extract_ts_from_name. rewrite H.
  apply pat_search_spec in H as [(ds & ts & -> & Hl & Hl6 & Hd & Ht) _].
  rewrite (split_on_token ds ts Hd Ht).
  do 8 (destruct ds as [|? ds]; [discriminate Hl|]).
  destruct ds; [|discriminate Hl].
  reflexivity.
Qed.

(** A bare 6-digit token is found by the 6-digit pattern only. *)
Lemma six_token_searches (six : str) :
  is_token 6 six -> PAT_8 six = None /\ PAT_6 six = Some six.
Proof.
  intros Ht. split.
  - apply pat_search_short.
    destruct Ht as (ds & ts & -> & Hl & Hl6 & _).
    rewrite length_app. simpl. lia.
  - now apply pat_search_token.
Qed.

Lemma token_truthy (nd : nat) (g : str) :
  is_token nd g -> truthy (Some g) = Some g.
Proof.
  intros (ds & ts & -> & _). destruct ds; reflexivity.
Qed.

Lemma decode_of_PAT_8 (name g : str) :
  PAT_8 name = Some g ->
  decode_name name
  = let* t := ts_to_datetime_utc (skipn 2 g) in Ok (Some t).
Proof.
  intros H. unfold decode_name.
  rewrite (extract_of_PAT_8 name g H). cbn [bind].
  apply pat_search_spec in H as [Ht _].
  now rewrite (token_truthy 6 _ (six_form_token g Ht)).
Qed.

Lemma decode_of_PAT_6 (name six : str) :
  PAT_8 name = None -> PAT_6 name = Some six ->
  decode_name name = let* t := ts_to_datetime_utc six in Ok (Some t).
Proof.
  intros H8 H6. unfold decode_name, extract_ts_from_name.
  rewrite H8, H6. cbn [bind].
  apply pat_search_spec in H6 as [Ht _].
  now rewrite (token_truthy 6 _ Ht).
Qed.

(** The year of a decoded instant is 2000 plus the first two digits of
    the canonical form. *)
Lemma ts_to_datetime_utc_year (ts : str) (t : datetime) :
  ts_to_datetime_utc ts = Ok t ->
  exists yy, py_int (slice 0 2 ts) = Ok yy /\ year t = 2000 + yy.
Proof.
  unfold ts_to_datetime_utc.
  destruct (py_int (slice 0 2 ts)) as [yy|]; simpl; [|discriminate].
  destruct (py_int (slice 2 4 ts)) as [mo|]; simpl; [|discriminate].
  destruct (py_int (slice 4 6 ts)) as [d|]; simpl; [|discriminate].
  destruct (py_int (slice 7 9 ts)) as [h|]; simpl; [|discriminate].
  destruct (py_int (slice 9 11 ts)) as [mi|]; simpl; [|discriminate].
  destruct (py_int (slice 11 13 ts)) as [s|]; simpl; [|discriminate].
  unfold datetime_new.
  destruct (_check_date_fields _ _ _ && _check_time_fields _ _ _ _);
    [|discriminate].
  intros [= <-]. exists yy. auto.
Qed.

(** Digits 3 and 4 of an 8-digit token always parse, to a number below
    100. *)
Lemma token_year_digits (g : str) :
  is_token 8 g ->
  exists yy, py_int (slice 2 4 g) = Ok yy /\ 0 <= yy <= 99
             /\ slice 0 2 (skipn 2 g) = slice 2 4 g.
Proof.
  intros (ds & ts & -> & Hl & Hl6 & Hd & Ht).
  do 8 (destruct ds as [|? ds]; [discriminate Hl|]).
  destruct ds; [|discriminate Hl].
  simpl in Hd. repeat (apply andb_prop in Hd as [? Hd]).
  unfold slice; simpl firstn.
  eexists. split; [apply py_int_two_digits; assumption|].
  split; [|reflexivity].
  match goal with
  | Ha : is_digit ?a = true, Hb : is_digit ?b = true
    |- 0 <= 10 * digit_value ?a + digit_value ?b <= 99 =>
      pose proof (digit_value_range a Ha);
      pose proof (digit_value_range b Hb); lia
  end.
Qed.

End Codec.

(* ===================================================================== *)
(** ** Properties of the timestamp codec *)
(* ===================================================================== *)

(** C6. For every name in which the 8-digit-date pattern finds a token [g],
    the extractor yields the 6-digit form of the same digits (the token
    without its first two digits); every name in which only that 6-digit
    form is found, the bare 6-digit form among them, decodes to the same
    result; and whenever an instant is decoded its year is 2000 plus the
    number written by digits 3-4 of the date. *)
Theorem eight_digit_token_decodes_as_six_digit_form (name g : str) :
  PAT_8 name = Some g ->
  let six := skipn 2 g in
  is_token 6 six
  /\ extract_ts_from_name name = Ok (Some six)
  /\ (PAT_8 six = None /\ PAT_6 six = Some six)
  /\ (forall name6,
        PAT_8 name6 = None -> PAT_6 name6 = Some six ->
        decode_name name6 = decode_name name)
  /\ exists yy,
       py_int (slice 2 4 g) = Ok yy /\ 0 <= yy <= 99
       /\ forall t, decode_name name = Ok (Some t) -> year t = 2000 + yy.
Proof.
  intros H six.
  pose proof (pat_search_spec 8 name g H) as [Ht _].
  pose proof (six_form_token g Ht) as Ht6.
  split; [exact Ht6|].
  split; [now apply extract_of_PAT_8|].
  split; [now apply six_token_searches|].
  split.
  - intros name6 H8 H6.
    now rewrite (decode_of_PAT_6 name6 six H8 H6), (decode_of_PAT_8 name g H).
  - destruct (token_year_digits g Ht) as (yy & Hy & Hr & Hs).
    exists yy. split; [exact Hy|]. split; [exact Hr|].
    intros t Hdec. rewrite (decode_of_PAT_8 name g H) in Hdec.
    destruct (ts_to_datetime_utc (skipn 2 g)) as [t'|] eqn:E;
      simpl in Hdec; [|discriminate].
    injection Hdec as <-.
    apply ts_to_datetime_utc_year in E as (yy' & Hy' & ->).
    rewrite Hs, Hy in Hy'. now injection Hy' as <-.
Qed.

Lemma eight_digit_token_decodes_as_six_digit_form_witness :
  PAT_8 (lit "cam_20251025_142015.jpg") = Some (lit "20251025_142015")
  /\ extract_ts_from_name (lit "cam_20251025_142015.jpg")
     = Ok (Some (lit "251025_142015"))
  /\ decode_name (lit "251025_142015")
     = decode_name (lit "cam_20251025_142015.jpg")
  /\ decode_name (lit "cam_20251025_142015.jpg")
     = Ok (Some (mkDatetime 2025 10 25 14 20 15 0)).
Proof.
  pose proof (eight_digit_token_decodes_as_six_digit_form
                (lit "cam_20251025_142015.jpg") (lit "20251025_142015")
                eq_refl) as (_ & He & (H8 & H6) & Hsame & _).
  split; [reflexivity|].
  split; [exact He|].
  split; [exact (Hsame (lit "251025_142015") H8 H6)|].
  reflexivity.
Defined.

(** C10. The first two digits of an 8-digit date are discarded: two names
    whose 8-digit tokens differ only there decode to the same result, and a
    decoded instant has year 2000 plus the number written by digits 3-4;
    19991025_142015 and 20991025_142015 both decode to 2099-10-25 14:20:15. *)
Theorem century_digits_are_discarded (name1 name2 g1 g2 : str) :
  PAT_8 name1 = Some g1 -> PAT_8 name2 = Some g2 ->
  skipn 2 g1 = skipn 2 g2 ->
  decode_name name1 = decode_name name2
  /\ (forall t, decode_name name1 = Ok (Some t) ->
        exists yy, py_int (slice 2 4 g1) = Ok yy /\ year t = 2000 + yy)
  /\ decode_name (lit "19991025_142015")
     = Ok (Some (mkDatetime 2099 10 25 14 20 15 0))
  /\ decode_name (lit "20991025_142015")
     = Ok (Some (mkDatetime 2099 10 25 14 20 15 0)).
Proof.
  intros H1 H2 Heq.
  split; [|split; [|split; reflexivity]].
  - now rewrite (decode_of_PAT_8 name1 g1 H1), (decode_of_PAT_8 name2 g2 H2),
      Heq.
  - intros t Hdec. rewrite (decode_of_PAT_8 name1 g1 H1) in Hdec.
    destruct (ts_to_datetime_utc (skipn 2 g1)) as [t'|] eqn:E;
      simpl in Hdec; [|discriminate].
    injection Hdec as <-.
    apply pat_search_spec in H1 as [Ht _].
    destruct (token_year_digits g1 Ht) as (yy & Hy & _ & Hs).
    apply ts_to_datetime_utc_year in E as (yy' & Hy' & ->).
    rewrite Hs, Hy in Hy'. injection Hy' as <-.
    now exists yy.
Qed.

Lemma century_digits_are_discarded_witness :
  decode_name (lit "cam_19991025_142015.jpg")
  = decode_name (lit "cam_20991025_142015.jpg")
  /\ decode_name (lit "cam_19991025_142015.jpg")
     = Ok (Some (mkDatetime 2099 10 25 14 20 15 0)).
Proof.
  split.
  - exact (proj1 (century_digits_are_discarded
                    (lit "cam_19991025_142015.jpg")
                    (lit "cam_20991025_142015.jpg")
                    (lit "19991025_142015") (lit "20991025_142015")
                    eq_refl eq_refl eq_refl)).
  - reflexivity.
Defined.

(* ===================================================================== *)
(** ** Properties of the gatherer *)
(* ===================================================================== *)

(** C7. Whenever the gatherer returns a catalog, the catalog is
    non-decreasing by instant, it is a rearrangement of the candidates in
    discovery order (the kept files of the scan, in scan order), and for
    every instant the records with that instant appear in the catalog in
    their discovery order: the sort is stable. *)
Theorem gather_images_sorted_stable (fs : filesystem) (catalog : list image) :
  gather_images fs = Ok catalog ->
  StronglySorted instant_le catalog
  /\ exists candidates,
       discovered fs = Ok candidates
       /\ map snd candidates = filter catalogued (scan_order fs)
       /\ Permutation candidates catalog
       /\ forall t,
            filter (same_instant t) catalog
            = filter (same_instant t) candidates.
Proof.
  rewrite gather_images_discovered.
  destruct (discovered fs) as [candidates|e] eqn:E; simpl; [|discriminate].
  intros [= <-]. split; [apply sort_by_key_sorted|].
  exists candidates. split; [reflexivity|]. split.
  - unfold discovered in E. now rewrite (scan_paths _ _ _ E).
  - split; [apply sort_by_key_perm|].
    intros t. apply sort_by_key_stable.
Qed.

Lemma gather_images_sorted_stable_witness :
  let fs := mkFs true sample_images true sample_legacy in
  let a := file_in "images/w29" "a_20250712_100000.jpg" in
  let b := file_in "images/w29" "b_250711_090000.PNG" in
  let c := file_in "images/w29" "c_20250712_100000.jpg" in
  let d := file_in "images_5min" "d_250711_090000.jpg" in
  let t11 := mkDatetime 2025 7 11 9 0 0 0 in
  let t12 := mkDatetime 2025 7 12 10 0 0 0 in
  gather_images fs = Ok [(t11, b); (t11, d); (t12, a); (t12, c)]
  /\ StronglySorted instant_le [(t11, b); (t11, d); (t12, a); (t12, c)]
  /\ discovered fs = Ok [(t12, a); (t11, b); (t12, c); (t11, d)].
Proof.
  intros fs a b c d t11 t12.
  assert (H : gather_images fs = Ok [(t11, b); (t11, d); (t12, a); (t12, c)])
    by reflexivity.
  split; [exact H|].
  split; [exact (proj1 (gather_images_sorted_stable fs _ H))|].
  reflexivity.
Defined.

(* ===================================================================== *)
(** ** Properties of the assembly loop *)
(* ===================================================================== *)

Lemma assemble_step_counts (rd : str -> option frame) (h w : Z)
  (st : assembly) (x : image) :
  let st' := assemble_step rd h w st x in
  (used st' = used st + 1 /\ skipped st' = skipped st
   /\ List.length (frames st') = S (List.length (frames st))
   /\ List.length (used_times st') = S (List.length (used_times st)))
  \/ (used st' = used st /\ skipped st' = skipped st + 1
      /\ frames st' = frames st /\ used_times st' = used_times st).
Proof.
  destruct x as [ts p]. unfold assemble_step.
  destruct (rd (p_str p)) as [fr|]; [|right; simpl; auto].
  destruct (fst (is_bad_frame (Some fr))); [right; simpl; auto|].
  left; simpl. rewrite !length_app. simpl. repeat split; lia.
Qed.

Lemma assemble_fold_counts (rd : str -> option frame) (h w : Z)
  (window : list image) (st : assembly) :
  let st' := fold_left (assemble_step rd h w) window st in
  used st' + skipped st'
  = used st + skipped st + Z.of_nat (List.length window)
  /\ used st' - used st
     = Z.of_nat (List.length (frames st')) - Z.of_nat (List.length (frames st))
  /\ used st' - used st
     = Z.of_nat (List.length (used_times st'))
       - Z.of_nat (List.length (used_times st))
  /\ used st <= used st'.
Proof.
  revert st; induction window as [|x window IH]; intros st; simpl.
  - lia.
  - specialize (IH (assemble_step rd h w st x)). simpl in IH.
    destruct (assemble_step_counts rd h w st x)
      as [(Hu & Hs & Hf & Ht)|(Hu & Hs & Hf & Ht)];
      rewrite ?Hf, ?Ht in *; lia.
Qed.

Lemma assemble_totals (rd : str -> option frame)
  (h w : Z) (window : list image) :
  let st := assemble rd h w window in
  used st + skipped st = Z.of_nat (List.length window)
  /\ used st = Z.of_nat (List.length (frames st))
  /\ used st = Z.of_nat (List.length (used_times st)).
Proof.
  intros st.
  destruct (assemble_fold_counts rd h w window assembly_init)
    as (H1 & H2 & H3 & _).
  fold (assemble rd h w window) in H1, H2, H3. fold st in H1, H2, H3.
  simpl in H1, H2, H3. lia.
Qed.

(** C5. In the assembly loop every record of the windowed catalog is
    attempted once and increments exactly one of the two counters, so after
    the loop [used + skipped] is the number of records of the windowed
    catalog (and [used] is the number of frames written). *)
Theorem used_plus_skipped_is_window_size (rd : str -> option frame) (h w : Z)
  (window : list image) :
  let st := assemble rd h w window in
  used st + skipped st = Z.of_nat (List.length window)
  /\ used st = Z.of_nat (List.length (frames st))
  /\ forall (s : assembly) (x : image),
       let s' := assemble_step rd h w s x in
       (used s' = used s + 1 /\ skipped s' = skipped s)
       \/ (used s' = used s /\ skipped s' = skipped s + 1).
Proof.
  intros st.
  destruct (assemble_fold_counts rd h w window assembly_init)
    as (H1 & H2 & _).
  fold (assemble rd h w window) in H1, H2. fold st in H1, H2.
  simpl in H1, H2.
  split; [lia|]. split; [lia|].
  intros s x s'.
  destruct (assemble_step_counts rd h w s x) as [(? & ? & _)|(? & ? & _)];
    auto.
Qed.

(* ===================================================================== *)
(** ** Properties of the window computer *)
(* ===================================================================== *)

Lemma compute_window_utc_returns (wd : world) (images : list image) :
  images <> [] ->
  exists e,
    py_max (map fst images) = Ok e
    /\ compute_window_utc wd images
       = Ok (to_naive_utc
               (aware_sub_minutes (sunrise_or_default wd)
                                  MINUTES_BEFORE_SUNRISE),
             e,
             aware_sub_minutes (sunrise_or_default wd) MINUTES_BEFORE_SUNRISE).
Proof.
  intros Hne.
  destruct (py_max_spec (map fst images)) as (e & He & _).
  { destruct images; [congruence|discriminate]. }
  exists e. split; [exact He|].
  destruct images as [|x images]; [congruence|].
  unfold compute_window_utc. rewrite He.
  cbv beta zeta iota delta [bind sunrise_or_default earliest_day_of wall].
  reflexivity.
Qed.

(** C4. For every non-empty catalog the window computer returns, and the
    end of the window is the maximum instant of the catalog: it occurs in
    the catalog and no record is later.  It is the same in any two worlds
    (clock readings, time zone data, sunrise providers), so it does not
    depend on "now". *)
Theorem window_end_is_catalog_maximum (wd wd' : world) (images : list image) :
  images <> [] ->
  exists e s sl s' sl',
    compute_window_utc wd images = Ok (s, e, sl)
    /\ compute_window_utc wd' images = Ok (s', e, sl')
    /\ In e (map instant images)
    /\ forall x, In x images -> dt_le (instant x) e.
Proof.
  intros Hne.
  destruct (compute_window_utc_returns wd images Hne) as (e & He & H).
  destruct (compute_window_utc_returns wd' images Hne) as (e' & He' & H').
  rewrite He in He'. injection He' as <-.
  destruct (py_max_spec (map fst images)) as (m & Hm & Hin & Hub).
  { destruct images; [congruence|discriminate]. }
  rewrite He in Hm. injection Hm as <-.
  do 5 eexists. split; [exact H|]. split; [exact H'|].
  split; [exact Hin|].
  intros x Hx. apply Hub. now apply in_map.
Qed.

Lemma window_end_is_catalog_maximum_witness :
  let t11 := mkDatetime 2025 7 11 9 0 0 0 in
  let t12 := mkDatetime 2025 7 12 10 0 0 0 in
  let a := file_in "images/w29" "a_20250712_100000.jpg" in
  let b := file_in "images/w29" "b_250711_090000.PNG" in
  let catalog := [(t11, b); (t12, a)] in
  let w1 := sample_world sample_images [] sample_now sample_imread in
  let w2 := sample_world [] [] (mkDatetime 2031 1 1 0 0 0 0) (fun _ => None) in
  exists e s sl s' sl',
    compute_window_utc w1 catalog = Ok (s, e, sl)
    /\ compute_window_utc w2 catalog = Ok (s', e, sl')
    /\ In e (map instant catalog)
    /\ forall x, In x catalog -> dt_le (instant x) e.
Proof.
  intros t11 t12 a b catalog w1 w2.
  apply (window_end_is_catalog_maximum w1 w2 catalog).
  discriminate.
Defined.

(** C1, as stated, fails: with the clock at 2025-07-15 12:00 UTC and an
    archive whose only capture is from 2024-01-01 12:00:00, the catalog is
    non-empty, the window starts at 2025-07-08 05:00:00 UTC and ends at
    2024-01-01 12:00:00. *)
Lemma window_start_after_end :
  let wd := sample_world stale_images [] sample_now (fun _ => None) in
  let p := file_in "images/w01" "cam_20240101_120000.jpg" in
  let catalog := [(mkDatetime 2024 1 1 12 0 0 0, p)] in
  gather_images (fs wd) = Ok catalog
  /\ catalog <> []
  /\ compute_window_utc wd catalog
     = Ok (mkDatetime 2025 7 8 5 0 0 0,
           mkDatetime 2024 1 1 12 0 0 0,
           mkAware (mkDatetime 2025 7 8 7 0 0 0) 7200)
  /\ dt_leb (mkDatetime 2025 7 8 5 0 0 0) (mkDatetime 2024 1 1 12 0 0 0)
     = false
  /\ ~ (forall (w : world) (images : list image) s e sl,
          images <> [] ->
          compute_window_utc w images = Ok (s, e, sl) -> dt_le s e).
Proof.
  intros wd p catalog.
  assert (Hc : compute_window_utc wd catalog
               = Ok (mkDatetime 2025 7 8 5 0 0 0,
                     mkDatetime 2024 1 1 12 0 0 0,
                     mkAware (mkDatetime 2025 7 8 7 0 0 0) 7200))
    by (vm_compute; reflexivity).
  split; [vm_compute; reflexivity|].
  split; [discriminate|].
  split; [exact Hc|].
  split; [vm_compute; reflexivity|].
  intros H.
  specialize (H wd catalog _ _ _ ltac:(discriminate) Hc).
  vm_compute in H. discriminate H.
Qed.

Lemma select_window_nonempty_iff (s e : datetime) (images : list image) :
  select_window s e images <> [] <->
  exists x, In x images /\ dt_le s (instant x) /\ dt_le (instant x) e.
Proof.
  unfold select_window. split.
  - intros H. destruct (filter (in_window s e) images) as [|x l] eqn:E;
      [congruence|].
    assert (Hx : In x (filter (in_window s e) images))
      by (rewrite E; now left).
    apply filter_In in Hx as [Hin Hw].
    apply andb_prop in Hw as [H1 H2]. now exists x.
  - intros (x & Hin & H1 & H2) E.
    assert (Hx : In x (filter (in_window s e) images)).
    { apply filter_In. split; [exact Hin|].
      unfold in_window. unfold dt_le, instant in *. now rewrite H1, H2. }
    rewrite E in Hx. destruct Hx.
Qed.

(** C1, amended. For every non-empty catalog and every world the window
    computer returns a window whose start is the sunrise (or 06:00 local
    when the provider has none) on the day seven civil days before the
    local date of "now", minus the lead-in, in UTC, and whose end is taken
    from the catalog; [start <= end] holds exactly when some record of the
    catalog is at or after the start, which is exactly when the window
    selects at least one record. *)
Theorem window_start_le_end_iff_selects (wd : world) (images : list image) :
  images <> [] ->
  exists s e sl,
    compute_window_utc wd images = Ok (s, e, sl)
    /\ sl = aware_sub_minutes (sunrise_or_default wd) MINUTES_BEFORE_SUNRISE
    /\ s = to_naive_utc sl
    /\ In e (map instant images)
    /\ (dt_le s e <-> exists x, In x images /\ dt_le s (instant x))
    /\ (dt_le s e <-> select_window s e images <> []).
Proof.
  intros Hne.
  destruct (compute_window_utc_returns wd images Hne) as (e & He & H).
  destruct (py_max_spec (map fst images)) as (m & Hm & Hin & Hub).
  { destruct images; [congruence|discriminate]. }
  rewrite He in Hm. injection Hm as <-.
  do 3 eexists. split; [exact H|].
  split; [reflexivity|]. split; [reflexivity|]. split; [exact Hin|].
  set (s := to_naive_utc _).
  assert (Hiff : dt_le s e <-> exists x, In x images /\ dt_le s (instant x)).
  { split.
    - intros Hle. apply in_map_iff in Hin as (x & Hx & Hinx).
      exists x. split; [exact Hinx|]. unfold instant. now rewrite Hx.
    - intros (x & Hinx & Hle). unfold dt_le in *.
      eapply dt_leb_trans; [exact Hle|]. apply Hub. now apply in_map. }
  split; [exact Hiff|].
  rewrite select_window_nonempty_iff, Hiff.
  split.
  - intros (x & Hinx & Hle). exists x. repeat split; auto.
    apply Hub. now apply in_map.
  - intros (x & Hinx & Hle & _). now exists x.
Qed.

Lemma window_start_le_end_iff_selects_witness :
  let t11 := mkDatetime 2025 7 11 9 0 0 0 in
  let t12 := mkDatetime 2025 7 12 10 0 0 0 in
  let a := file_in "images/w29" "a_20250712_100000.jpg" in
  let b := file_in "images/w29" "b_250711_090000.PNG" in
  let catalog := [(t11, b); (t12, a)] in
  let wd := sample_world sample_images [] sample_now sample_imread in
  compute_window_utc wd catalog
  = Ok (mkDatetime 2025 7 8 5 0 0 0, t12,
        mkAware (mkDatetime 2025 7 8 7 0 0 0) 7200)
  /\ exists s e sl,
       compute_window_utc wd catalog = Ok (s, e, sl)
       /\ sl = aware_sub_minutes (sunrise_or_default wd) MINUTES_BEFORE_SUNRISE
       /\ s = to_naive_utc sl
       /\ In e (map instant catalog)
       /\ (dt_le s e <-> exists x, In x catalog /\ dt_le s (instant x))
       /\ (dt_le s e <-> select_window s e catalog <> []).
Proof.
  intros t11 t12 a b catalog wd.
  split; [vm_compute; reflexivity|].
  apply (window_start_le_end_iff_selects wd catalog).
  discriminate.
Defined.

(* ===================================================================== *)
(** ** Properties of the frame-quality classifier *)
(* ===================================================================== *)

Lemma is_bad_frame_spec_classify (f : option frame) :
  is_bad_frame f = spec_classify f.
Proof.
  destruct f as [fr|]; [|reflexivity].
  unfold is_bad_frame, spec_classify, spec_checks_in_order, first_failure,
    check_too_small, check_low_std, check_mostly_black, check_mostly_white,
    check_dominant_bin, check_half, check_excessive_lap,
    black_ratio, white_ratio, dom_ratio, total_px.
  destruct ((shape_h fr <? MIN_DIM) || (shape_w fr <? MIN_DIM));
    [reflexivity|].
  destruct (Qlt_bool (gray_std fr) MIN_STD); [reflexivity|].
  destruct (Qle_bool PERCENT_BLACK _); [reflexivity|].
  destruct (Qle_bool PERCENT_WHITE _); [reflexivity|].
  destruct (Qle_bool DOMINANT_BIN_RATIO _); [reflexivity|].
  destruct (Qlt_bool HALF_DIFF_THRESH _).
  - destruct (Qle_bool (left_mean fr) _ || Qle_bool (right_mean fr) _);
      [reflexivity|].
    destruct (Qle_bool _ (left_mean fr) || Qle_bool _ (right_mean fr));
      [reflexivity|].
    destruct (Qlt_bool LAPL_VAR_MAX (lap_var fr)); reflexivity.
  - destruct (Qlt_bool LAPL_VAR_MAX (lap_var fr)); reflexivity.
Qed.

Lemma check_reason_not_empty (c : check) (fr : frame) (r : reason) :
  In c spec_checks_in_order -> c fr = Some r -> r <> no_reason.
Proof.
  unfold spec_checks_in_order. simpl.
  intros [<-|[<-|[<-|[<-|[<-|[<-|[<-|[]]]]]]]];
    unfold check_too_small, check_low_std, check_mostly_black,
      check_mostly_white, check_dominant_bin, check_half,
      check_excessive_lap;
    repeat match goal with
           | |- context [if ?b then _ else _] => destruct b
           end;
    intros [= <-] || discriminate; discriminate.
Qed.

Lemma first_failure_reason (cs : list check) (fr : frame) (r : reason) :
  incl cs spec_checks_in_order ->
  first_failure cs fr = Some r -> r <> no_reason.
Proof.
  induction cs as [|c cs IH]; simpl; [discriminate|].
  intros Hincl. destruct (c fr) as [r'|] eqn:E.
  - intros [= <-]. eapply check_reason_not_empty; eauto.
    apply Hincl. now left.
  - apply IH. intros x Hx. apply Hincl. now right.
Qed.

(** Past the first three checks, a near-black frame is rejected at check 4. *)
Lemma check_4_fires (fr : frame) :
  reaches_check_4 fr = true -> near_black fr = true ->
  is_bad_frame (Some fr) = (true, mostly_black (black_ratio fr)).
Proof.
  unfold reaches_check_4, near_black, black_ratio, total_px.
  intros [H1 H2]%andb_prop Hb.
  apply negb_true_iff in H1, H2.
  unfold is_bad_frame. now rewrite H1, H2, Hb.
Qed.

Lemma check_4_passes (fr : frame) :
  near_black fr = false ->
  is_mostly_black (snd (is_bad_frame (Some fr))) = false.
Proof.
  unfold near_black, black_ratio, total_px. intros Hb.
  unfold is_bad_frame. rewrite Hb.
  repeat match goal with
         | |- context [if ?b then _ else _] => destruct b
         end; reflexivity.
Qed.

(** C3, as stated, fails: the 3x3 checkerboard with black corners has five
    of its nine pixels at 0 and Laplacian variance 1027555.6, so it is
    near-black and above the Laplacian bound, and its verdict is too_small,
    not mostly_black. *)
Lemma near_black_noisy_frame_is_too_small :
  near_black checkerboard_3x3 = true
  /\ lap_above_bound checkerboard_3x3 = true
  /\ is_bad_frame (Some checkerboard_3x3) = (true, too_small 3 3)
  /\ ~ (forall fr,
          near_black fr = true -> lap_above_bound fr = true ->
          is_mostly_black (snd (is_bad_frame (Some fr))) = true).
Proof.
  split; [reflexivity|]. split; [reflexivity|]. split; [reflexivity|].
  intros H. specialize (H checkerboard_3x3 eq_refl eq_refl).
  vm_compute in H. discriminate H.
Qed.

(** C3, amended. The classifier is the first-failure run of the checks in
    the order unreadable, too_small, low_std, mostly_black, mostly_white,
    dominant_bin, half_blank/half_white, excessive_lap; a frame is rejected
    exactly when its verdict carries a reason; and a decoded frame that is
    both near-black and above the Laplacian bound is never reported as
    excessive_lap: its reason is too_small when a dimension is below the
    minimum, else low_std when the standard deviation is below the
    minimum, else mostly_black. *)
Theorem classifier_order_near_black_reason (f : option frame) :
  is_bad_frame f = spec_classify f
  /\ (fst (is_bad_frame f) = true <-> snd (is_bad_frame f) <> no_reason)
  /\ forall fr,
       f = Some fr -> near_black fr = true -> lap_above_bound fr = true ->
       is_excessive_lap (snd (is_bad_frame f)) = false
       /\ is_bad_frame f
          = if (shape_h fr <? MIN_DIM) || (shape_w fr <? MIN_DIM)
            then (true, too_small (shape_w fr) (shape_h fr))
            else if Qlt_bool (gray_std fr) MIN_STD
                 then (true, low_std (gray_std fr))
                 else (true, mostly_black (black_ratio fr)).
Proof.
  split; [apply is_bad_frame_spec_classify|]. split.
  - rewrite is_bad_frame_spec_classify. unfold spec_classify.
    destruct f as [fr|]; [|simpl; split; [discriminate|reflexivity]].
    destruct (first_failure spec_checks_in_order fr) as [r|] eqn:E;
      cbn [fst snd].
    + split; [intros _|reflexivity].
      eapply first_failure_reason; [apply incl_refl|exact E].
    + split; [discriminate|congruence].
  - intros fr -> Hb Hl.
    assert (Hv : is_bad_frame (Some fr)
                 = if (shape_h fr <? MIN_DIM) || (shape_w fr <? MIN_DIM)
                   then (true, too_small (shape_w fr) (shape_h fr))
                   else if Qlt_bool (gray_std fr) MIN_STD
                        then (true, low_std (gray_std fr))
                        else (true, mostly_black (black_ratio fr))).
    { unfold near_black, black_ratio, total_px in *.
      unfold is_bad_frame. rewrite Hb.
      destruct ((shape_h fr <? MIN_DIM) || (shape_w fr <? MIN_DIM));
        [reflexivity|].
      destruct (Qlt_bool (gray_std fr) MIN_STD); reflexivity. }
    split; [|exact Hv].
    rewrite Hv.
    destruct ((shape_h fr <? MIN_DIM) || (shape_w fr <? MIN_DIM));
      [reflexivity|].
    destruct (Qlt_bool (gray_std fr) MIN_STD); reflexivity.
Qed.

Lemma classifier_order_near_black_reason_witness :
  near_black checkerboard_3x3 = true
  /\ lap_above_bound checkerboard_3x3 = true
  /\ is_excessive_lap (snd (is_bad_frame (Some checkerboard_3x3))) = false
  /\ is_bad_frame (Some checkerboard_3x3) = (true, too_small 3 3).
Proof.
  split; [reflexivity|]. split; [reflexivity|].
  destruct (proj2 (proj2 (classifier_order_near_black_reason
                            (Some checkerboard_3x3)))
              checkerboard_3x3 eq_refl eq_refl eq_refl) as [H1 H2].
  split; [exact H1|]. rewrite H2. reflexivity.
Defined.

(** A ratio of pixel counts against a threshold, in integers. *)
Lemma ratio_ge_iff (a : Z) (b : positive) (n t : Z) :
  0 < t ->
  (Qle_bool (a # b) (ratio n t) = true <-> a * t <= n * Zpos b).
Proof.
  intros Ht. rewrite Qle_bool_iff. unfold ratio, Qdiv, Qinv, Qle, Qmult.
  destruct t as [|t|t]; try lia. simpl. lia.
Qed.

(** C8, as stated, fails: a 100x100 frame past checks 1 to 3 with exactly
    5500 pixels at or below the black level has black fraction equal to
    the ratio 0.55, not above it, and is rejected as mostly_black. *)
Lemma black_fraction_at_ratio_is_rejected :
  reaches_check_4 frame_black_at_ratio = true
  /\ black_ratio frame_black_at_ratio == PERCENT_BLACK
  /\ is_bad_frame (Some frame_black_at_ratio)
     = (true, mostly_black (black_ratio frame_black_at_ratio))
  /\ ~ (forall fr,
          reaches_check_4 fr = true ->
          (is_mostly_black (snd (is_bad_frame (Some fr))) = true
           <-> (PERCENT_BLACK < black_ratio fr)%Q)).
Proof.
  split; [reflexivity|]. split; [reflexivity|]. split; [reflexivity|].
  intros H. specialize (H frame_black_at_ratio eq_refl).
  destruct H as [H _]. specialize (H eq_refl).
  vm_compute in H. discriminate H.
Qed.

(** C8, amended. For every decoded frame reaching check 4, the classifier
    rejects it with reason mostly_black exactly when the fraction of pixels
    at or below the black level is at least the configured ratio (55 in
    100): a frame whose black fraction equals the ratio is rejected. *)
Theorem mostly_black_iff_fraction_at_least_ratio (fr : frame) :
  reaches_check_4 fr = true ->
  (is_mostly_black (snd (is_bad_frame (Some fr))) = true
   <-> (PERCENT_BLACK <= black_ratio fr)%Q)
  /\ ((PERCENT_BLACK <= black_ratio fr)%Q
      <-> 55 * total_px fr <= 100 * n_black fr)
  /\ ((PERCENT_BLACK <= black_ratio fr)%Q ->
      is_bad_frame (Some fr) = (true, mostly_black (black_ratio fr))).
Proof.
  intros Hr.
  assert (Hpos : 0 < total_px fr).
  { unfold reaches_check_4 in Hr. apply andb_prop in Hr as [Hd _].
    apply negb_true_iff, orb_false_iff in Hd as [Hh Hw].
    apply Z.ltb_ge in Hh, Hw. unfold MIN_DIM, total_px in *. nia. }
  split; [|split].
  - rewrite <- Qle_bool_iff. fold (near_black fr).
    destruct (near_black fr) eqn:Hb.
    + rewrite (check_4_fires fr Hr Hb). simpl. tauto.
    + rewrite (check_4_passes fr Hb). tauto.
  - rewrite <- Qle_bool_iff. unfold PERCENT_BLACK, black_ratio.
    rewrite (ratio_ge_iff 55 100 _ _ Hpos). lia.
  - intros Hle. apply check_4_fires; [exact Hr|].
    unfold near_black. now apply Qle_bool_iff.
Qed.

Lemma mostly_black_iff_fraction_at_least_ratio_witness :
  reaches_check_4 frame_black_at_ratio = true
  /\ (PERCENT_BLACK <= black_ratio frame_black_at_ratio)%Q
  /\ is_mostly_black (snd (is_bad_frame (Some frame_black_at_ratio))) = true.
Proof.
  split; [reflexivity|].
  assert (H : (PERCENT_BLACK <= black_ratio frame_black_at_ratio)%Q).
  { apply Qle_bool_iff. reflexivity. }
  split; [exact H|].
  apply (proj1 (mostly_black_iff_fraction_at_least_ratio
                  frame_black_at_ratio eq_refl)).
  exact H.
Defined.

(* ===================================================================== *)
(** ** Names the codec cannot decode *)
(* ===================================================================== *)

Section Aborts.

Lemma py_int_raises (s : str) (e : exn) :
  py_int s = Raise e -> e = ValueError.
Proof.
  unfold py_int. destruct s; [now intros [= <-]|].
  destruct (all_digits _); [discriminate|now intros [= <-]].
Qed.

Lemma ts_to_datetime_utc_raises (ts : str) (e : exn) :
  ts_to_datetime_utc ts = Raise e -> e = ValueError.
Proof.
  unfold ts_to_datetime_utc, datetime_new.
  repeat match goal with
         | |- context [py_int ?s] =>
             let E := fresh "E" in
             destruct (py_int s) eqn:E; cbn [bind];
             [|apply py_int_raises in E; congruence]
         end.
  destruct (_ && _); [discriminate|now intros [= <-]].
Qed.

Lemma extract_ts_from_name_raises (name : str) (e : exn) :
  extract_ts_from_name name = Raise e -> e = ValueError.
Proof.
  unfold extract_ts_from_name.
  destruct (PAT_8 name).
  - destruct (split_on underscore l) as [|? [|? [|? ?]]];
      try discriminate; now intros [= <-].
  - destruct (PAT_6 name); discriminate.
Qed.

Lemma decode_name_raises (name : str) (e : exn) :
  decode_name name = Raise e -> e = ValueError.
Proof.
  unfold decode_name.
  destruct (extract_ts_from_name name) as [ts|e'] eqn:E; cbn [bind].
  - destruct (truthy ts) as [tsYY|]; [|discriminate].
    destruct (ts_to_datetime_utc tsYY) eqn:E'; cbn [bind]; [discriminate|].
    intros [= <-]. eapply ts_to_datetime_utc_raises; eauto.
  - intros [= <-]. eapply extract_ts_from_name_raises; eauto.
Qed.

(** Each iteration of a scan loop in terms of the codec. *)
Lemma scan_one_decode (acc : list image) (p : path) :
  scan_one acc p
  = if p_is_file p && in_exts (lower (suffix p)) then
      let* o := decode_name (p_name p) in
      match o with
      | Some t => Ok (acc ++ [(t, p)])
      | None => Ok acc
      end
    else Ok acc.
Proof.
  unfold scan_one, decode_name.
  destruct (p_is_file p && in_exts (lower (suffix p))); [|reflexivity].
  destruct (extract_ts_from_name (p_name p)) as [ts|]; cbn [bind];
    [|reflexivity].
  destruct (truthy ts) as [tsYY|]; [|reflexivity].
  destruct (ts_to_datetime_utc tsYY); reflexivity.
Qed.

Lemma scan_one_raises (acc : list image) (p : path) (e : exn) :
  scan_one acc p = Raise e -> e = ValueError.
Proof.
  rewrite scan_one_decode.
  destruct (p_is_file p && in_exts (lower (suffix p))); [|discriminate].
  destruct (decode_name (p_name p)) as [[t|]|e'] eqn:E; cbn [bind];
    try discriminate.
  intros [= <-]. eapply decode_name_raises; eauto.
Qed.

(** One undecodable candidate anywhere in a listing makes the scan raise. *)
Lemma scan_aborts (ps : list path) (acc : list image) (p : path) (e : exn) :
  In p ps ->
  p_is_file p = true -> in_exts (lower (suffix p)) = true ->
  decode_name (p_name p) = Raise e ->
  scan acc ps = Raise ValueError.
Proof.
  intros Hin Hf Hx Hd.
  revert acc; induction ps as [|q ps IH]; intros acc; [destruct Hin|].
  simpl. destruct (scan_one acc q) as [acc'|e'] eqn:E; cbn [bind].
  - destruct Hin as [->|Hin]; [|now apply IH].
    rewrite scan_one_decode, Hf, Hx, Hd in E. discriminate.
  - now rewrite (scan_one_raises _ _ _ E).
Qed.

Lemma gather_images_aborts (fs : filesystem) (p : path) (e : exn) :
  In p (scan_order fs) ->
  p_is_file p = true -> in_exts (lower (suffix p)) = true ->
  decode_name (p_name p) = Raise e ->
  gather_images fs = Raise ValueError.
Proof.
  intros Hin Hf Hx Hd. rewrite gather_images_discovered.
  unfold discovered. now rewrite (scan_aborts _ [] p e Hin Hf Hx Hd).
Qed.

(** A name is skipped exactly when neither pattern finds a token. *)
Lemma decode_name_skips_iff (name : str) :
  decode_name name = Ok None <-> PAT_8 name = None /\ PAT_6 name = None.
Proof.
  split.
  - intros H. destruct (PAT_8 name) as [g|] eqn:E8.
    + rewrite (decode_of_PAT_8 name g E8) in H.
      destruct (ts_to_datetime_utc (skipn 2 g)); discriminate.
    + split; [reflexivity|].
      destruct (PAT_6 name) as [g|] eqn:E6; [|reflexivity].
      rewrite (decode_of_PAT_6 name g E8 E6) in H.
      destruct (ts_to_datetime_utc g); discriminate.
  - intros [E8 E6]. unfold decode_name, extract_ts_from_name.
    now rewrite E8, E6.
Qed.

End Aborts.

(** C9. There are names carrying a token of the 8-digit or of the 6-digit
    pattern whose digits are no calendar date-time (month 13, day 00): the
    codec raises on them, and a scanned image file with such a name makes
    the gatherer, and with it the whole run, end on the uncaught exception.
    A name is skipped, on the other hand, exactly when neither pattern
    finds a token in it. *)
Theorem out_of_range_token_aborts_run :
  let month13 := lit "cam_20251301_120000.jpg" in
  let day00 := lit "251000_120000.jpg" in
  PAT_8 month13 = Some (lit "20251301_120000")
  /\ decode_name month13 = Raise ValueError
  /\ PAT_8 day00 = None /\ PAT_6 day00 = Some (lit "251000_120000")
  /\ decode_name day00 = Raise ValueError
  /\ (forall (wd : world) (p : path),
        p_name p = month13 \/ p_name p = day00 ->
        p_is_file p = true ->
        In p (scan_order (fs wd)) ->
        gather_images (fs wd) = Raise ValueError
        /\ main wd = Raise ValueError)
  /\ (forall name,
        decode_name name = Ok None
        <-> PAT_8 name = None /\ PAT_6 name = None).
Proof.
  intros month13 day00.
  split; [reflexivity|]. split; [reflexivity|]. split; [reflexivity|].
  split; [reflexivity|]. split; [reflexivity|]. split.
  - intros wd p Hn Hf Hin.
    assert (Hg : gather_images (fs wd) = Raise ValueError).
    { destruct Hn as [Hn|Hn].
      - apply (gather_images_aborts (fs wd) p ValueError Hin Hf).
        + unfold suffix. rewrite Hn. reflexivity.
        + rewrite Hn. reflexivity.
      - apply (gather_images_aborts (fs wd) p ValueError Hin Hf).
        + unfold suffix. rewrite Hn. reflexivity.
        + rewrite Hn. reflexivity. }
    split; [exact Hg|]. unfold main. now rewrite Hg.
  - apply decode_name_skips_iff.
Qed.

Lemma out_of_range_token_aborts_run_witness :
  let wd := sample_world bad_month_images [] sample_now sample_imread in
  gather_images (fs wd) = Raise ValueError /\ main wd = Raise ValueError.
Proof.
  intros wd.
  destruct out_of_range_token_aborts_run as (_ & _ & _ & _ & _ & H & _).
  apply (H wd (file_in "images/w29" "cam_20251301_120000.jpg")).
  - left. reflexivity.
  - reflexivity.
  - simpl. right. left. reflexivity.
Defined.

(* ===================================================================== *)
(** ** The exits of [main] *)
(* ===================================================================== *)

Section MainExits.

Variable rd : str -> option frame.

Lemma is_bad_frame_None : fst (is_bad_frame None) = true.
Proof. reflexivity. Qed.

Lemma first_good_none (window : list image) :
  first_good rd window = None <->
  forall x, In x window -> accepted rd x = false.
Proof.
  induction window as [|[ts p] window IH].
  - simpl. split; [intros _ x []|reflexivity].
  - cbn [first_good].
    assert (Hacc : accepted rd (ts, p)
                   = negb (fst (is_bad_frame (rd (p_str p)))))
      by reflexivity.
    destruct (rd (p_str p)) as [fr|].
    + destruct (fst (is_bad_frame (Some fr))) eqn:Eb.
      * rewrite IH. split.
        -- intros H x [<-|Hx]; [exact Hacc|auto].
        -- intros H x Hx. apply H. now right.
      * split; [discriminate|]. intros H.
        specialize (H (ts, p) (or_introl eq_refl)).
        rewrite Hacc in H. discriminate.
    + rewrite IH. split.
      * intros H x [<-|Hx]; [exact Hacc|auto].
      * intros H x Hx. apply H. now right.
Qed.

Lemma assemble_step_used (h w : Z) (st : assembly) (x : image) :
  used (assemble_step rd h w st x)
  = used st + (if accepted rd x then 1 else 0).
Proof.
  destruct x as [ts p]. unfold assemble_step, accepted. cbn [snd].
  destruct (rd (p_str p)) as [fr|]; [|cbn [used]; simpl; lia].
  destruct (fst (is_bad_frame (Some fr))); cbn [used negb]; lia.
Qed.

Lemma assemble_fold_used (h w : Z) (window : list image) (st : assembly) :
  used (fold_left (assemble_step rd h w) window st)
  = used st + Z.of_nat (List.length (filter (accepted rd) window)).
Proof.
  revert st; induction window as [|x window IH]; intros st; simpl; [lia|].
  rewrite IH, assemble_step_used.
  destruct (accepted rd x); simpl List.length; lia.
Qed.

Lemma assemble_used_zero_iff (h w : Z) (window : list image) :
  used (assemble rd h w window) = 0 <->
  forall x, In x window -> accepted rd x = false.
Proof.
  unfold assemble. rewrite assemble_fold_used. simpl used.
  split.
  - intros H x Hx. destruct (accepted rd x) eqn:E; [|reflexivity].
    assert (Hin : In x (filter (accepted rd) window))
      by (apply filter_In; auto).
    destruct (filter (accepted rd) window); [destruct Hin|].
    simpl List.length in H. lia.
  - intros H.
    destruct (filter (accepted rd) window) as [|y l] eqn:E; [reflexivity|].
    assert (Hin : In y (filter (accepted rd) window))
      by (rewrite E; now left).
    apply filter_In in Hin as [Hy Ha]. rewrite (H y Hy) in Ha.
    discriminate.
Qed.

End MainExits.

Lemma py_min_returns (l : list datetime) :
  l <> [] -> exists m, py_min l = Ok m.
Proof. destruct l; [congruence|]. intros _. eexists. reflexivity. Qed.

(** When gathering returns, [main] returns too, through one of four exits:
    the three diagnostics with status 1, each under its own condition, or
    status 0 with at least one frame written and counters that add up to
    the size of the window.  The fourth diagnostic of the source ("No
    usable frames after filtering.") is never reached. *)
Lemma main_exit_cases (wd : world) (images : list image) :
  gather_images (fs wd) = Ok images ->
  exists o,
    main wd = Ok o
    /\ ((images = [] /\ o = mkOutcome 1 [NoImagesFound] None)
        \/ (images <> []
            /\ exists s e sl,
                 compute_window_utc wd images = Ok (s, e, sl)
                 /\ let window := select_window s e images in
                    (window = [] /\ o = mkOutcome 1 [NoImagesInWindow] None)
                    \/ (window <> []
                        /\ (forall x, In x window ->
                              accepted (imread wd) x = false)
                        /\ o = mkOutcome 1 [NoValidFrames] None)
                    \/ ((exists x, In x window
                                   /\ accepted (imread wd) x = true)
                        /\ exit_code o = 0
                        /\ exists fr u k lo hi,
                             video o = Some fr /\ fr <> []
                             /\ printed o
                                = [Saved; UsedSkipped u k; FrameRange lo hi]
                             /\ 1 <= u
                             /\ u = Z.of_nat (List.length fr)
                             /\ u + k = Z.of_nat (List.length window)))).
Proof.
  intros Hg. unfold main. rewrite Hg. cbn [bind].
  destruct images as [|x0 images0].
  { eexists. split; [reflexivity|]. left. auto. }
  remember (x0 :: images0) as images eqn:Ei.
  assert (Hne : images <> []) by (subst; discriminate).
  destruct (compute_window_utc_returns wd images Hne) as (e & _ & Hc).
  rewrite Hc. cbn [bind].
  set (s := to_naive_utc _) in *.
  set (sl := aware_sub_minutes _ _) in *.
  destruct (select_window s e images) as [|y0 window0] eqn:Ew.
  { eexists. split; [reflexivity|]. right. split; [exact Hne|].
    exists s, e, sl. split; [reflexivity|]. cbv zeta. rewrite Ew.
    left. auto. }
  remember (y0 :: window0) as window eqn:Ewd.
  assert (Hwne : window <> []) by (subst; discriminate).
  destruct (first_good (imread wd) window) as [first|] eqn:Ef.
  - set (st := assemble (imread wd) (shape_h first) (shape_w first) window).
    assert (Hex : exists x, In x window /\ accepted (imread wd) x = true).
    { destruct (existsb (accepted (imread wd)) window) eqn:Ex.
      - apply existsb_exists in Ex. exact Ex.
      - assert (Hn : first_good (imread wd) window = None).
        { apply first_good_none. intros x Hx.
          destruct (accepted (imread wd) x) eqn:Ea; [|reflexivity].
          assert (existsb (accepted (imread wd)) window = true)
            by (apply existsb_exists; eauto).
          congruence. }
        congruence. }
    destruct (assemble_totals
                (imread wd) (shape_h first) (shape_w first) window)
      as (Hsum & Hfr & Hut).
    fold st in Hsum, Hfr, Hut.
    assert (Hu : used st <> 0).
    { intros H0. unfold st in H0.
      rewrite assemble_used_zero_iff in H0.
      destruct Hex as (x & Hx & Ha). rewrite (H0 x Hx) in Ha.
      discriminate. }
    assert (Hpos : 1 <= used st) by lia.
    apply Z.eqb_neq in Hu. rewrite Hu.
    destruct (py_min_returns (used_times st)) as (lo & Hlo).
    { intros E0. rewrite E0 in Hut. simpl in Hut. lia. }
    destruct (py_max_spec (used_times st)) as (hi & Hhi & _).
    { intros E0. rewrite E0 in Hut. simpl in Hut. lia. }
    rewrite Hlo, Hhi. cbn [bind].
    eexists. split; [reflexivity|]. right. split; [exact Hne|].
    exists s, e, sl. split; [reflexivity|]. cbv zeta. rewrite Ew.
    right. right.
    split; [exact Hex|]. split; [reflexivity|].
    exists (frames st), (used st), (skipped st), lo, hi. cbn [video printed].
    repeat split; auto.
    intros E0. rewrite E0 in Hfr. simpl in Hfr. lia.
  - eexists. split; [reflexivity|]. right. split; [exact Hne|].
    exists s, e, sl. split; [reflexivity|]. cbv zeta. rewrite Ew.
    right. left.
    split; [exact Hwne|]. split; [|reflexivity].
    now apply first_good_none.
Qed.

(** C2. An archive with two image files, one of them named
    cam_20251301_120000.jpg: input is found, the other file lies inside the
    window and its frame is accepted, so none of the three fatal conditions
    holds, and yet the run neither exits 0 nor prints a diagnostic: it ends
    on the uncaught [ValueError].  Without that file the same run writes
    one frame and exits 0. *)
Theorem run_aborts_outside_the_three_conditions :
  let a := file_in "images/w29" "a_20250712_100000.jpg" in
  let t12 := mkDatetime 2025 7 12 10 0 0 0 in
  let wd := sample_world bad_month_images [] sample_now sample_imread in
  let wd_without := sample_world [a] [] sample_now sample_imread in
  main wd = Raise ValueError
  /\ (forall o, main wd <> Ok o)
  /\ main wd_without
     = Ok (mkOutcome 0 [Saved; UsedSkipped 1 0; FrameRange t12 t12]
             (Some [mkWritten daylight_frame 480 640])).
Proof.
  intros a t12 wd wd_without.
  assert (H : main wd = Raise ValueError) by (vm_compute; reflexivity).
  split; [exact H|]. split.
  - intros o Ho. rewrite H in Ho. discriminate.
  - vm_compute. reflexivity.
Qed.

(* ===================================================================== *)
(** ** Worked runs *)
(* ===================================================================== *)

Example extract_8 :
  extract_ts_from_name (lit "cam_20251025_142015.jpg")
  = Ok (Some (lit "251025_142015")).
Proof. reflexivity. Qed.

Example extract_6 :
  extract_ts_from_name (lit "251025_142015.jpg")
  = Ok (Some (lit "251025_142015")).
Proof. reflexivity. Qed.

Example extract_none :
  extract_ts_from_name (lit "snapshot.jpg") = Ok None.
Proof. reflexivity. Qed.

Example decode_8 :
  decode_name (lit "cam_20251025_142015.jpg")
  = Ok (Some (mkDatetime 2025 10 25 14 20 15 0)).
Proof. reflexivity. Qed.

Example decode_leap_day :
  decode_name (lit "240229_000000.png")
  = Ok (Some (mkDatetime 2024 2 29 0 0 0 0))
  /\ decode_name (lit "250229_000000.png") = Raise ValueError.
Proof. split; reflexivity. Qed.

Example suffix_cases :
  suffix (file_in "images" "a.tar.JPG") = lit ".JPG"
  /\ suffix (file_in "images" ".jpg") = []
  /\ suffix (file_in "images" "jpg.") = []
  /\ suffix (file_in "images" "README") = [].
Proof. repeat split; reflexivity. Qed.

Example date_arithmetic :
  date_sub_days (mkDate 2024 3 5) 7 = mkDate 2024 2 27
  /\ date_sub_days (mkDate 2025 1 3) 7 = mkDate 2024 12 27
  /\ dt_add_seconds (mkDatetime 2025 1 1 0 2 0 0) (- 300)
     = mkDatetime 2024 12 31 23 57 0 0.
Proof. repeat split; vm_compute; reflexivity. Qed.

Example classify_samples :
  is_bad_frame None = (true, unreadable)
  /\ is_bad_frame (Some daylight_frame) = (false, no_reason)
  /\ is_bad_frame (Some flat_frame) = (true, low_std (0 # 1)).
Proof. repeat split; reflexivity. Qed.

(** The two half means below differ by a little more than 60; their float
    difference is 60, check 7 does not fire and the frame is accepted,
    although its right half is near black. *)
Example half_difference_is_rounded :
  (HALF_DIFF_THRESH
   < left_mean frame_half_diff_60 - right_mean frame_half_diff_60)%Q
  /\ (fl_sub (left_mean frame_half_diff_60) (right_mean frame_half_diff_60)
      == HALF_DIFF_THRESH)%Q
  /\ (right_mean frame_half_diff_60 <= BLACK_LEVEL + (10 # 1))%Q
  /\ is_bad_frame (Some frame_half_diff_60) = (false, no_reason).
Proof. repeat split; vm_compute; reflexivity || discriminate. Qed.

Example fl_round_samples :
  (fl_round (1 # 10) == 3602879701896397 # 36028797018963968)%Q
  /\ (fl_round (254 # 3) == 5957887007042219 # 70368744177664)%Q
  /\ (fl_round (60 # 1) == 60 # 1)%Q
  /\ (fl_round (- (1 # 3)) == - (6004799503160661 # 18014398509481984))%Q.
Proof. repeat split; vm_compute; reflexivity. Qed.

(** The sample archive: four records in the window, the flat frame skipped,
    three frames written. *)
Example sample_run :
  exists fr lo hi,
    main (sample_world sample_images sample_legacy sample_now sample_imread)
    = Ok (mkOutcome 0 [Saved; UsedSkipped 3 1; FrameRange lo hi] (Some fr))
    /\ List.length fr = 3%nat.
Proof. do 3 eexists. split; vm_compute; reflexivity. Qed.

Example stale_run :
  main (sample_world stale_images [] sample_now sample_imread)
  = Ok (mkOutcome 1 [NoImagesInWindow] None).
Proof. vm_compute. reflexivity. Qed.

Example empty_run :
  main (sample_world [] [] sample_now sample_imread)
  = Ok (mkOutcome 1 [NoImagesFound] None).
Proof. vm_compute. reflexivity. Qed.

(* ===================================================================== *)
(** ** Further properties of the codec *)
(* ===================================================================== *)

Lemma extract_ts_from_name_shape (name : str) :
  exists r,
    extract_ts_from_name name = Ok r
    /\ (r = None <-> PAT_8 name = None /\ PAT_6 name = None)
    /\ forall ts, r = Some ts -> is_token 6 ts /\ List.length ts = 13%nat.
Proof.
  assert (Hlen : forall ts, is_token 6 ts -> List.length ts = 13%nat).
  { intros ts (ds & tt & -> & Hl & Hl6 & _).
    rewrite length_app. simpl. lia. }
  destruct (PAT_8 name) as [g|] eqn:E8.
  - exists (Some (skipn 2 g)).
    split; [now apply extract_of_PAT_8|]. split.
    + split; [discriminate|]. intros [H _]. discriminate H.
    + intros ts [= <-].
      apply pat_search_spec in E8 as [Ht _].
      pose proof (six_form_token g Ht) as H6. auto.
  - unfold extract_ts_from_name. rewrite E8.
    destruct (PAT_6 name) as [g|] eqn:E6.
    + exists (Some g). split; [reflexivity|]. split.
      * split; [discriminate|]. intros [_ H]. discriminate H.
      * intros ts [= <-].
        apply pat_search_spec in E6 as [Ht _]. auto.
    + exists None. split; [reflexivity|]. split; [tauto|discriminate].
Qed.

(** The extractor never raises; it answers [None] exactly when neither
    pattern finds a token, and what it returns is always of the canonical
    form YYMMDD_HHMMSS: six digits, an underscore, six digits. *)
Theorem extract_ts_from_name_canonical (name : str) :
  exists r,
    extract_ts_from_name name = Ok r
    /\ (r = None <-> PAT_8 name = None /\ PAT_6 name = None)
    /\ forall ts, r = Some ts -> is_token 6 ts /\ List.length ts = 13%nat.
Proof. exact (extract_ts_from_name_shape name). Qed.

Lemma py_int_at_most_two (s : str) (y : Z) :
  py_int s = Ok y -> (List.length s <= 2)%nat -> 0 <= y <= 99.
Proof.
  destruct s as [|a [|b [|c s]]]; [discriminate| | |simpl; lia].
  - unfold py_int, all_digits, forallb, fold_left.
    destruct (is_digit a) eqn:Ha; cbv beta iota delta [andb];
      [|discriminate].
    intros [= <-] _. pose proof (digit_value_range a Ha). lia.
  - intros H _.
    destruct (is_digit a) eqn:Ha; [destruct (is_digit b) eqn:Hb|].
    + rewrite (py_int_two_digits a b Ha Hb) in H.
      assert (Hy : y = 10 * digit_value a + digit_value b) by congruence.
      rewrite Hy.
      pose proof (digit_value_range a Ha).
      pose proof (digit_value_range b Hb). lia.
    + unfold py_int, all_digits, forallb in H. rewrite Ha, Hb in H.
      discriminate H.
    + unfold py_int, all_digits, forallb in H. rewrite Ha in H.
      discriminate H.
Qed.

Lemma datetime_new_ok_iff (y m d hh mi ss : Z) (t : datetime) :
  0 <= hh -> 0 <= mi -> 0 <= ss -> 1 <= y <= 9999 ->
  (datetime_new y m d hh mi ss = Ok t
   <-> t = mkDatetime y m d hh mi ss 0
       /\ 1 <= m <= 12 /\ 1 <= d <= _days_in_month y m
       /\ hh <= 23 /\ mi <= 59 /\ ss <= 59).
Proof.
  intros Hh Hm Hs Hy.
  unfold datetime_new, _check_date_fields, _check_time_fields,
    MINYEAR, MAXYEAR.
  match goal with |- context [if ?c then _ else _] => destruct c eqn:E end.
  - repeat rewrite andb_true_iff in E. repeat rewrite Z.leb_le in E.
    split.
    + intros [= <-]. split; [reflexivity|]. lia.
    + intros [-> _]. reflexivity.
  - split; [discriminate|]. intros [_ H]. exfalso.
    apply not_true_iff_false in E. apply E.
    repeat rewrite andb_true_iff. repeat rewrite Z.leb_le. lia.
Qed.

(** On a canonical token the decoder reads the six two-digit numbers,
    returns the instant with exactly these fields in the century 2000-2099
    when they form a calendar date and a time of day, and raises
    [ValueError] otherwise. *)
Theorem ts_to_datetime_utc_on_token (ts : str) :
  is_token 6 ts ->
  exists yy mm dd hh mi ss,
    py_int (slice 0 2 ts) = Ok yy /\ py_int (slice 2 4 ts) = Ok mm
    /\ py_int (slice 4 6 ts) = Ok dd /\ py_int (slice 7 9 ts) = Ok hh
    /\ py_int (slice 9 11 ts) = Ok mi /\ py_int (slice 11 13 ts) = Ok ss
    /\ 0 <= yy <= 99
    /\ (forall t,
          ts_to_datetime_utc ts = Ok t
          <-> t = mkDatetime (2000 + yy) mm dd hh mi ss 0
              /\ token_fields_ok yy mm dd hh mi ss)
    /\ (~ token_fields_ok yy mm dd hh mi ss ->
        ts_to_datetime_utc ts = Raise ValueError).
Proof.
  intros (ds & tt & -> & Hl & Hl6 & Hd & Ht).
  do 6 (destruct ds as [|? ds]; [discriminate Hl|]).
  destruct ds; [|discriminate Hl].
  do 6 (destruct tt as [|? tt]; [discriminate Hl6|]).
  destruct tt; [|discriminate Hl6].
  simpl in Hd, Ht.
  repeat (apply andb_prop in Hd as [? Hd]).
  repeat (apply andb_prop in Ht as [? Ht]).
  unfold ts_to_datetime_utc, slice. cbn [skipn firstn app Nat.sub].
  repeat (rewrite py_int_two_digits by assumption).
  cbn [bind].
  do 6 eexists. do 6 (split; [reflexivity|]).
  repeat match goal with
         | Hc : is_digit ?c = true |- _ =>
             pose proof (digit_value_range c Hc); clear Hc
         end.
  split; [lia|].
  unfold token_fields_ok. split.
  - intros t. apply datetime_new_ok_iff; lia.
  - intros Hn.
    match goal with
    | |- datetime_new ?y ?m ?d ?h ?i ?s = _ =>
        destruct (datetime_new y m d h i s) as [t|e] eqn:E
    end.
    + exfalso. apply Hn. apply datetime_new_ok_iff in E; [tauto|lia..].
    + unfold datetime_new in E.
      match type of E with
      | (if ?c then _ else _) = _ => destruct c; congruence
      end.
Qed.

Lemma ts_to_datetime_utc_on_token_witness :
  is_token 6 (lit "251025_142015")
  /\ ts_to_datetime_utc (lit "251025_142015")
     = Ok (mkDatetime 2025 10 25 14 20 15 0)
  /\ exists yy mm dd hh mi ss,
       py_int (slice 0 2 (lit "251025_142015")) = Ok yy
       /\ py_int (slice 2 4 (lit "251025_142015")) = Ok mm
       /\ py_int (slice 4 6 (lit "251025_142015")) = Ok dd
       /\ py_int (slice 7 9 (lit "251025_142015")) = Ok hh
       /\ py_int (slice 9 11 (lit "251025_142015")) = Ok mi
       /\ py_int (slice 11 13 (lit "251025_142015")) = Ok ss
       /\ 0 <= yy <= 99
       /\ (forall t,
             ts_to_datetime_utc (lit "251025_142015") = Ok t
             <-> t = mkDatetime (2000 + yy) mm dd hh mi ss 0
                 /\ token_fields_ok yy mm dd hh mi ss)
       /\ (~ token_fields_ok yy mm dd hh mi ss ->
           ts_to_datetime_utc (lit "251025_142015") = Raise ValueError).
Proof.
  assert (Ht : is_token 6 (lit "251025_142015")).
  { exists (lit "251025"), (lit "142015"). repeat split; reflexivity. }
  split; [exact Ht|]. split; [reflexivity|].
  exact (ts_to_datetime_utc_on_token (lit "251025_142015") Ht).
Defined.

Section Formatting.

Lemma digit_char_spec (k : Z) :
  0 <= k <= 9 ->
  is_digit (digit_char k) = true /\ digit_value (digit_char k) = k.
Proof.
  intros Hk.
  assert (H : k = 0 \/ k = 1 \/ k = 2 \/ k = 3 \/ k = 4 \/ k = 5 \/ k = 6
              \/ k = 7 \/ k = 8 \/ k = 9) by lia.
  repeat (destruct H as [->|H]; [split; reflexivity|]).
  subst. split; reflexivity.
Qed.

Lemma fmt2_digits (n : Z) :
  0 <= n <= 99 -> all_digits (fmt2 n) = true.
Proof.
  intros Hn. unfold fmt2, all_digits, forallb.
  destruct (digit_char_spec (n / 10)) as [-> _];
    [Z.div_mod_to_equations; lia|].
  destruct (digit_char_spec (n mod 10)) as [-> _];
    [Z.div_mod_to_equations; lia|].
  reflexivity.
Qed.

Lemma py_int_fmt2 (n : Z) :
  0 <= n <= 99 ->
  py_int [digit_char (n / 10); digit_char (n mod 10)] = Ok n.
Proof.
  intros Hn.
  destruct (digit_char_spec (n / 10)) as [H1 V1];
    [Z.div_mod_to_equations; lia|].
  destruct (digit_char_spec (n mod 10)) as [H2 V2];
    [Z.div_mod_to_equations; lia|].
  rewrite (py_int_two_digits _ _ H1 H2), V1, V2. f_equal.
  Z.div_mod_to_equations; lia.
Qed.

(** The decoder on a canonical token written out with [fmt2]. *)
Lemma ts_to_datetime_utc_fmt2 (yy mm dd hh mi ss : Z) :
  0 <= yy <= 99 -> 0 <= mm <= 99 -> 0 <= dd <= 99 ->
  0 <= hh <= 99 -> 0 <= mi <= 99 -> 0 <= ss <= 99 ->
  ts_to_datetime_utc
    (fmt2 yy ++ fmt2 mm ++ fmt2 dd ++ underscore
       :: fmt2 hh ++ fmt2 mi ++ fmt2 ss)
  = datetime_new (2000 + yy) mm dd hh mi ss.
Proof.
  intros Hy Hm Hd Hh Hi Hs.
  unfold ts_to_datetime_utc, slice, fmt2.
  cbn [app skipn firstn Nat.sub].
  rewrite !py_int_fmt2 by assumption.
  reflexivity.
Qed.

Lemma datetime_new_inv (y m d hh mi ss : Z) (t : datetime) :
  datetime_new y m d hh mi ss = Ok t ->
  t = mkDatetime y m d hh mi ss 0
  /\ 1 <= y <= 9999 /\ 1 <= m <= 12 /\ 1 <= d <= _days_in_month y m
  /\ 0 <= hh <= 23 /\ 0 <= mi <= 59 /\ 0 <= ss <= 59.
Proof.
  unfold datetime_new, _check_date_fields, _check_time_fields,
    MINYEAR, MAXYEAR.
  match goal with |- context [if ?c then _ else _] => destruct c eqn:E end;
    [|discriminate].
  repeat rewrite andb_true_iff in E. repeat rewrite Z.leb_le in E.
  intros [= <-]. split; [reflexivity|]. lia.
Qed.

Lemma days_in_month_le_31 (y m : Z) : _days_in_month y m <= 31.
Proof.
  unfold _days_in_month, _DAYS_IN_MONTH.
  destruct ((m =? 2) && _is_leap y); [lia|].
  destruct m as [|p|p]; try lia.
  do 4 (destruct p as [p|p|]; try lia).
Qed.

Lemma strftime_is_token (t : datetime) :
  1000 <= year t <= 9999 -> 0 <= month t <= 99 -> 0 <= day t <= 99 ->
  0 <= hour t <= 99 -> 0 <= minute t <= 99 -> 0 <= second t <= 99 ->
  is_token 8 (strftime_Ymd_HMS t).
Proof.
  intros Hy Hm Hd Hh Hi Hs. unfold strftime_Ymd_HMS.
  exists (fmt4 (year t) ++ fmt2 (month t) ++ fmt2 (day t)),
    (fmt2 (hour t) ++ fmt2 (minute t) ++ fmt2 (second t)).
  split; [now rewrite <- !app_assoc|].
  split; [reflexivity|]. split; [reflexivity|].
  unfold all_digits. rewrite !forallb_app.
  fold (all_digits (fmt2 (month t))). fold (all_digits (fmt2 (day t))).
  fold (all_digits (fmt2 (hour t))). fold (all_digits (fmt2 (minute t))).
  fold (all_digits (fmt2 (second t))).
  rewrite !fmt2_digits by assumption.
  split; [|reflexivity].
  unfold fmt4, forallb.
  destruct (digit_char_spec (year t / 1000)) as [-> _];
    [Z.div_mod_to_equations; lia|].
  destruct (digit_char_spec ((year t / 100) mod 10)) as [-> _];
    [Z.div_mod_to_equations; lia|].
  destruct (digit_char_spec ((year t / 10) mod 10)) as [-> _];
    [Z.div_mod_to_equations; lia|].
  destruct (digit_char_spec (year t mod 10)) as [-> _];
    [Z.div_mod_to_equations; lia|].
  reflexivity.
Qed.

Lemma pat_search_token_app (nd : nat) (g post : str) :
  is_token nd g -> pat_search nd (g ++ post) = Some g.
Proof.
  intros Ht. pose proof (match_here_token nd g post Ht) as H.
  destruct (g ++ post); simpl; now rewrite H.
Qed.

End Formatting.

Lemma strftime_then_decode (y m d hh mi ss : Z) (t : datetime)
  (post : str) :
  datetime_new y m d hh mi ss = Ok t ->
  2000 <= y <= 2099 ->
  PAT_8 (strftime_Ymd_HMS t ++ post) = Some (strftime_Ymd_HMS t)
  /\ decode_name (strftime_Ymd_HMS t ++ post) = Ok (Some t).
Proof.
  intros Hnew Hy.
  pose proof Hnew as Hn.
  apply datetime_new_inv in Hn as (Ht & _ & Hm & Hd & Hh & Hi & Hs).
  pose proof (days_in_month_le_31 y m) as H31.
  assert (Htok : is_token 8 (strftime_Ymd_HMS t)).
  { subst t. apply strftime_is_token; simpl; lia. }
  assert (H8 : PAT_8 (strftime_Ymd_HMS t ++ post) = Some (strftime_Ymd_HMS t))
    by now apply pat_search_token_app.
  split; [exact H8|].
  rewrite (decode_of_PAT_8 _ _ H8).
  assert (Hsix : skipn 2 (strftime_Ymd_HMS t)
                 = fmt2 (y - 2000) ++ fmt2 m ++ fmt2 d ++ underscore
                     :: fmt2 hh ++ fmt2 mi ++ fmt2 ss).
  { subst t. unfold strftime_Ymd_HMS, fmt4, fmt2. cbn [year month day hour
      minute second app skipn].
    replace ((y - 2000) / 10) with ((y / 10) mod 10)
      by (Z.div_mod_to_equations; lia).
    replace ((y - 2000) mod 10) with (y mod 10)
      by (Z.div_mod_to_equations; lia).
    reflexivity. }
  rewrite Hsix, ts_to_datetime_utc_fmt2 by lia.
  replace (2000 + (y - 2000)) with y by lia.
  now rewrite Hnew.
Qed.

(** Round trip through the name format: a valid instant of the years
    2000-2099 printed with ['%Y%m%d_%H%M%S'], as [main] prints the window
    end into the output name, and followed by any text, is decoded by the
    codec to the same instant. *)
Theorem strftime_decode_round_trip (y m d hh mi ss : Z) (t : datetime)
  (post : str) :
  datetime_new y m d hh mi ss = Ok t ->
  2000 <= y <= 2099 ->
  PAT_8 (strftime_Ymd_HMS t ++ post) = Some (strftime_Ymd_HMS t)
  /\ decode_name (strftime_Ymd_HMS t ++ post) = Ok (Some t).
Proof. exact (strftime_then_decode y m d hh mi ss t post). Qed.

Lemma strftime_decode_round_trip_witness :
  strftime_Ymd_HMS (mkDatetime 2025 7 12 10 0 0 0) = lit "20250712_100000"
  /\ decode_name (strftime_Ymd_HMS (mkDatetime 2025 7 12 10 0 0 0)
                  ++ lit "_24fps.mp4")
     = Ok (Some (mkDatetime 2025 7 12 10 0 0 0)).
Proof.
  split; [reflexivity|].
  apply (strftime_decode_round_trip 2025 7 12 10 0 0
           (mkDatetime 2025 7 12 10 0 0 0) (lit "_24fps.mp4")).
  - reflexivity.
  - lia.
Defined.

(* ===================================================================== *)
(** ** Further properties of the gatherer *)
(* ===================================================================== *)

Lemma decode_name_ok_valid (name : str) (t : datetime) :
  decode_name name = Ok (Some t) ->
  2000 <= year t <= 2099
  /\ datetime_new (year t) (month t) (day t) (hour t) (minute t) (second t)
     = Ok t.
Proof.
  unfold decode_name.
  destruct (extract_ts_from_name name) as [ts|]; cbn [bind]; [|discriminate].
  destruct (truthy ts) as [tsYY|]; [|discriminate].
  destruct (ts_to_datetime_utc tsYY) as [t'|] eqn:E; cbn [bind];
    [|discriminate].
  intros [= ->]. revert E. unfold ts_to_datetime_utc.
  destruct (py_int (slice 0 2 tsYY)) as [yy|] eqn:Ey; cbn [bind];
    [|discriminate].
  destruct (py_int (slice 2 4 tsYY)) as [mo|]; cbn [bind]; [|discriminate].
  destruct (py_int (slice 4 6 tsYY)) as [d|]; cbn [bind]; [|discriminate].
  destruct (py_int (slice 7 9 tsYY)) as [h|]; cbn [bind]; [|discriminate].
  destruct (py_int (slice 9 11 tsYY)) as [mi|]; cbn [bind]; [|discriminate].
  destruct (py_int (slice 11 13 tsYY)) as [s|]; cbn [bind]; [|discriminate].
  intros E. pose proof E as E'.
  apply datetime_new_inv in E' as (-> & _).
  apply py_int_at_most_two in Ey;
    [|unfold slice; rewrite length_firstn; apply Nat.le_min_l].
  cbn [year month day hour minute second]. split; [lia|exact E].
Qed.

Lemma scan_one_origin (acc c : list image) (p : path) (x : image) :
  scan_one acc p = Ok c -> In x c ->
  In x acc
  \/ (snd x = p /\ p_is_file p = true /\ in_exts (lower (suffix p)) = true
      /\ decode_name (p_name p) = Ok (Some (fst x))).
Proof.
  rewrite scan_one_decode.
  destruct (p_is_file p && in_exts (lower (suffix p))) eqn:Ec.
  - apply andb_prop in Ec as [Hf Hx].
    destruct (decode_name (p_name p)) as [[t|]|] eqn:Ed; cbn [bind];
      try discriminate.
    + intros [= <-] Hin. apply in_app_or in Hin as [Hin|[<-|[]]]; auto.
    + intros [= <-]. auto.
  - intros [= <-]. auto.
Qed.

Lemma scan_origin (ps : list path) (acc c : list image) (x : image) :
  scan acc ps = Ok c -> In x c ->
  In x acc
  \/ (In (snd x) ps /\ p_is_file (snd x) = true
      /\ in_exts (lower (suffix (snd x))) = true
      /\ decode_name (p_name (snd x)) = Ok (Some (fst x))).
Proof.
  revert acc; induction ps as [|p ps IH]; intros acc; simpl.
  - intros [= <-]. auto.
  - destruct (scan_one acc p) as [acc'|] eqn:E; cbn [bind]; [|discriminate].
    intros H Hin. destruct (IH _ H Hin) as [Hacc|(H1 & H2 & H3 & H4)].
    + destruct (scan_one_origin _ _ _ _ E Hacc)
        as [Ha|(Hp & Hf & Hx & Hd)]; [now left|].
      right. rewrite Hp. auto.
    + right. auto.
Qed.

Lemma catalog_record_origin (fs : filesystem)
  (catalog : list image) (t : datetime) (p : path) :
  gather_images fs = Ok catalog ->
  In (t, p) catalog ->
  In p (scan_order fs)
  /\ p_is_file p = true
  /\ in_exts (lower (suffix p)) = true
  /\ decode_name (p_name p) = Ok (Some t)
  /\ 2000 <= year t <= 2099
  /\ datetime_new (year t) (month t) (day t) (hour t) (minute t) (second t)
     = Ok t.
Proof.
  rewrite gather_images_discovered.
  destruct (discovered fs) as [candidates|] eqn:E; cbn [bind];
    [|discriminate].
  intros [= <-] Hin.
  apply (Permutation_in _ (Permutation_sym (sort_by_key_perm candidates)))
    in Hin.
  destruct (scan_origin _ _ _ _ E Hin) as [[]|(H1 & H2 & H3 & H4)].
  simpl in *. repeat split; auto; now apply decode_name_ok_valid in H4.
Qed.

(** Every record of a returned catalog stands for a scanned regular file
    with one of the seven recognized extensions whose name the codec
    decodes to the record's instant; the instant is a valid date-time of
    the years 2000 to 2099 with no microseconds. *)
Theorem catalog_records_are_decoded_image_files (fs : filesystem)
  (catalog : list image) (t : datetime) (p : path) :
  gather_images fs = Ok catalog ->
  In (t, p) catalog ->
  In p (scan_order fs)
  /\ p_is_file p = true
  /\ in_exts (lower (suffix p)) = true
  /\ decode_name (p_name p) = Ok (Some t)
  /\ 2000 <= year t <= 2099
  /\ datetime_new (year t) (month t) (day t) (hour t) (minute t) (second t)
     = Ok t.
Proof. exact (catalog_record_origin fs catalog t p). Qed.

Lemma catalog_records_are_decoded_image_files_witness :
  let fs := mkFs true sample_images true sample_legacy in
  let b := file_in "images/w29" "b_250711_090000.PNG" in
  let t11 := mkDatetime 2025 7 11 9 0 0 0 in
  In b (scan_order fs)
  /\ p_is_file b = true
  /\ in_exts (lower (suffix b)) = true
  /\ decode_name (p_name b) = Ok (Some t11)
  /\ 2000 <= year t11 <= 2099
  /\ datetime_new (year t11) (month t11) (day t11) (hour t11) (minute t11)
       (second t11) = Ok t11.
Proof.
  intros fs b t11.
  apply (catalog_records_are_decoded_image_files fs
           [(t11, b); (t11, file_in "images_5min" "d_250711_090000.jpg");
            (mkDatetime 2025 7 12 10 0 0 0,
             file_in "images/w29" "a_20250712_100000.jpg");
            (mkDatetime 2025 7 12 10 0 0 0,
             file_in "images/w29" "c_20250712_100000.jpg")] t11 b).
  - reflexivity.
  - left. reflexivity.
Defined.

Lemma scan_one_not_catalogued (acc : list image) (p : path) :
  catalogued p = false -> scan_one acc p = Ok acc.
Proof.
  unfold catalogued, scan_one.
  destruct (p_is_file p && in_exts (lower (suffix p))); [|reflexivity].
  destruct (extract_ts_from_name_shape (p_name p)) as (r & -> & _).
  cbn [bind andb]. destruct (truthy r); [discriminate|reflexivity].
Qed.

Lemma scan_none_catalogued (ps : list path) (acc : list image) :
  (forall p, In p ps -> catalogued p = false) -> scan acc ps = Ok acc.
Proof.
  induction ps as [|p ps IH]; intros H; simpl; [reflexivity|].
  rewrite scan_one_not_catalogued by (apply H; now left).
  cbn [bind]. apply IH. intros q Hq. apply H. now right.
Qed.

(** When no scanned entry is a regular file with a recognized extension
    and a timestamp in its name (missing roots and empty directories
    included), gathering returns the empty catalog without raising and the
    run ends with status 1 on the "no images found" line, before any
    window is computed or any writer opened. *)
Theorem no_timestamped_images_is_no_input (wd : world) :
  (forall p, In p (scan_order (fs wd)) -> catalogued p = false) ->
  gather_images (fs wd) = Ok []
  /\ main wd = Ok (mkOutcome 1 [NoImagesFound] None).
Proof.
  intros H.
  assert (Hg : gather_images (fs wd) = Ok []).
  { rewrite gather_images_discovered. unfold discovered.
    now rewrite (scan_none_catalogued _ [] H). }
  split; [exact Hg|]. unfold main. now rewrite Hg.
Qed.

Lemma no_timestamped_images_is_no_input_witness :
  let wd := sample_world [file_in "images/w29" "notes.txt";
                          file_in "images/w29" "nodate.jpg";
                          file_in "images/w29" "clip_20250712_100000.gif";
                          mkPath (lit "w29_20250712_100000.jpg")
                                 (lit "images/w29_20250712_100000.jpg") false]
                         [] sample_now sample_imread in
  gather_images (fs wd) = Ok []
  /\ main wd = Ok (mkOutcome 1 [NoImagesFound] None).
Proof.
  intros wd. apply (no_timestamped_images_is_no_input wd).
  intros p Hp. simpl in Hp.
  destruct Hp as [<-|[<-|[<-|[<-|[]]]]]; reflexivity.
Defined.

(* ===================================================================== *)
(** ** The window inside the catalog *)
(* ===================================================================== *)

Section WindowTail.

Lemma sorted_snoc_bounds (l : list image) (x : image) :
  StronglySorted instant_le (l ++ [x]) ->
  Forall (fun y => instant_le y x) l.
Proof.
  induction l as [|y l IH]; simpl; intros H; [constructor|].
  inversion H as [|? ? Hs Hall]; subst.
  constructor; [|now apply IH].
  rewrite Forall_forall in Hall. apply Hall.
  apply in_or_app. right. now left.
Qed.

Lemma sorted_filter_tail (s : datetime) (l : list image) :
  StronglySorted instant_le l ->
  exists older,
    l = older ++ filter (at_or_after s) l /\ Forall (before s) older.
Proof.
  induction 1 as [|x l Hs IH Hall].
  - exists []. split; [reflexivity|constructor].
  - destruct (at_or_after s x) eqn:E.
    + exists []. split; [|constructor]. cbn [app filter]. rewrite E.
      f_equal. symmetry. apply forallb_filter_id.
      apply forallb_forall. intros y Hy.
      rewrite Forall_forall in Hall. specialize (Hall y Hy).
      unfold at_or_after, instant_le, dt_le in *.
      eapply dt_leb_trans; eauto.
    + destruct IH as (older & Hl & Ho).
      exists (x :: older). cbn [filter]. rewrite E. split.
      * simpl. now rewrite <- Hl.
      * constructor; [|exact Ho].
        unfold before, at_or_after in *. rewrite dt_ltb_leb, E. reflexivity.
Qed.

Lemma compute_window_utc_inv (wd : world) (images : list image)
  (s e : datetime) (sl : aware) :
  compute_window_utc wd images = Ok (s, e, sl) ->
  images <> []
  /\ py_max (map fst images) = Ok e
  /\ In e (map instant images)
  /\ forall x, In x images -> dt_le (instant x) e.
Proof.
  intros H.
  assert (Hne : images <> []).
  { intros ->. discriminate H. }
  destruct (compute_window_utc_returns wd images Hne) as (e' & He & Hc).
  rewrite Hc in H. injection H as _ <- _.
  destruct (py_max_spec (map fst images)) as (m & Hm & Hin & Hub).
  { destruct images; [congruence|discriminate]. }
  rewrite He in Hm. injection Hm as <-.
  repeat split; auto. intros x Hx. apply Hub. now apply in_map.
Qed.

Lemma select_window_lower_only (wd : world) (images : list image)
  (s e : datetime) (sl : aware) :
  compute_window_utc wd images = Ok (s, e, sl) ->
  select_window s e images = filter (at_or_after s) images.
Proof.
  intros H. apply compute_window_utc_inv in H as (_ & _ & _ & Hub).
  unfold select_window. apply filter_ext_in. intros x Hx.
  unfold in_window, at_or_after, instant. specialize (Hub x Hx).
  unfold dt_le, instant in Hub. rewrite Hub. apply andb_true_r.
Qed.

Lemma gather_images_sorted (fs : filesystem) (images : list image) :
  gather_images fs = Ok images -> StronglySorted instant_le images.
Proof.
  rewrite gather_images_discovered.
  destruct (discovered fs); cbn [bind]; [|discriminate].
  intros [= <-]. apply sort_by_key_sorted.
Qed.

End WindowTail.

(** For the catalog the gatherer returns and the window computed on it:
    the end bound excludes nothing, the window is the tail of the catalog
    that starts at the first record at or after the window start (every
    record left out is strictly earlier), and the window end is the
    instant of the last record of the catalog. *)
Theorem window_is_catalog_tail (wd : world) (images : list image)
  (s e : datetime) (sl : aware) :
  gather_images (fs wd) = Ok images ->
  compute_window_utc wd images = Ok (s, e, sl) ->
  select_window s e images = filter (at_or_after s) images
  /\ (exists older,
        images = older ++ select_window s e images
        /\ Forall (before s) older)
  /\ exists front x, images = front ++ [x] /\ e = instant x.
Proof.
  intros Hg Hc.
  pose proof (gather_images_sorted _ _ Hg) as Hs.
  pose proof (select_window_lower_only _ _ _ _ _ Hc) as Hsel.
  split; [exact Hsel|]. split.
  - rewrite Hsel. now apply sorted_filter_tail.
  - apply compute_window_utc_inv in Hc as (Hne & _ & Hin & Hub).
    destruct (exists_last Hne) as (front & x & ->).
    exists front, x. split; [reflexivity|].
    apply in_map_iff in Hin as (y & <- & Hy).
    apply dt_leb_antisym.
    + apply in_app_or in Hy as [Hy|[<-|[]]]; [|apply dt_leb_refl].
      pose proof (sorted_snoc_bounds _ _ Hs) as Hb.
      rewrite Forall_forall in Hb. apply (Hb y Hy).
    + apply Hub. apply in_or_app. right. now left.
Qed.

Lemma window_is_catalog_tail_witness :
  let wd := sample_world
              [file_in "images/w27" "old_250701_120000.jpg";
               file_in "images/w29" "a_20250712_100000.jpg";
               file_in "images/w29" "b_250711_090000.PNG"]
              [] sample_now sample_imread in
  let t01 := mkDatetime 2025 7 1 12 0 0 0 in
  let t11 := mkDatetime 2025 7 11 9 0 0 0 in
  let t12 := mkDatetime 2025 7 12 10 0 0 0 in
  let old := file_in "images/w27" "old_250701_120000.jpg" in
  let a := file_in "images/w29" "a_20250712_100000.jpg" in
  let b := file_in "images/w29" "b_250711_090000.PNG" in
  let images := [(t01, old); (t11, b); (t12, a)] in
  let s := mkDatetime 2025 7 8 5 0 0 0 in
  select_window s t12 images = [(t11, b); (t12, a)]
  /\ select_window s t12 images = filter (at_or_after s) images
  /\ (exists older,
        images = older ++ select_window s t12 images
        /\ Forall (before s) older)
  /\ exists front x, images = front ++ [x] /\ t12 = instant x.
Proof.
  intros wd t01 t11 t12 old a b images s.
  split; [vm_compute; reflexivity|].
  apply (window_is_catalog_tail wd images s t12
           (mkAware (mkDatetime 2025 7 8 7 0 0 0) 7200)).
  - vm_compute. reflexivity.
  - vm_compute. reflexivity.
Defined.

(* ===================================================================== *)
(** ** What the assembly loop writes *)
(* ===================================================================== *)

Section Assembly.

Variable rd : str -> option frame.
Variables h w : Z.

Lemma assemble_step_effect (st : assembly) (x : image) :
  let st' := assemble_step rd h w st x in
  frames st' = frames st ++ written_of rd h w x
  /\ used_times st'
     = used_times st ++ (if accepted rd x then [instant x] else [])
  /\ skipped st' = skipped st + (if accepted rd x then 0 else 1).
Proof.
  destruct x as [ts p]. unfold assemble_step, written_of, accepted, instant.
  cbn [fst snd].
  destruct (rd (p_str p)) as [fr|].
  - destruct (fst (is_bad_frame (Some fr)));
      cbn [frames used_times skipped negb]; rewrite ?app_nil_r;
      repeat split; lia.
  - cbn [frames used_times skipped negb is_bad_frame fst].
    rewrite ?app_nil_r. repeat split; lia.
Qed.

Lemma assemble_fold_effect (window : list image) (st : assembly) :
  let st' := fold_left (assemble_step rd h w) window st in
  frames st' = frames st ++ flat_map (written_of rd h w) window
  /\ used_times st'
     = used_times st ++ map instant (filter (accepted rd) window)
  /\ skipped st'
     = skipped st + Z.of_nat (List.length (filter (rejected rd) window)).
Proof.
  revert st; induction window as [|x window IH]; intros st; simpl.
  - rewrite !app_nil_r. repeat split; lia.
  - specialize (IH (assemble_step rd h w st x)). simpl in IH.
    destruct IH as (H1 & H2 & H3).
    destruct (assemble_step_effect st x) as (E1 & E2 & E3).
    rewrite H1, H2, H3, E1, E2, E3, <- !app_assoc.
    unfold rejected. destruct (accepted rd x); simpl; repeat split; lia.
Qed.

Lemma written_of_accepted (x : image) :
  accepted rd x = true ->
  exists fr, rd (p_str (snd x)) = Some fr
             /\ written_of rd h w x = [mkWritten fr h w].
Proof.
  unfold accepted, written_of.
  destruct (rd (p_str (snd x))) as [fr|]; [|discriminate].
  destruct (fst (is_bad_frame (Some fr))); [discriminate|].
  intros _. now exists fr.
Qed.

Lemma written_of_rejected (x : image) :
  accepted rd x = false -> written_of rd h w x = [].
Proof.
  unfold accepted, written_of.
  destruct (rd (p_str (snd x))) as [fr|]; [|reflexivity].
  destruct (fst (is_bad_frame (Some fr))); [reflexivity|discriminate].
Qed.

Lemma written_of_sources (window : list image) :
  map (fun wr => Some (wr_src wr)) (flat_map (written_of rd h w) window)
  = map (fun x => rd (p_str (snd x))) (filter (accepted rd) window).
Proof.
  induction window as [|x window IH]; [reflexivity|].
  cbn [flat_map filter]. rewrite map_app, IH.
  destruct (accepted rd x) eqn:E.
  - destruct (written_of_accepted x E) as (fr & Hr & ->).
    simpl. now rewrite Hr.
  - now rewrite (written_of_rejected x E).
Qed.

Lemma written_of_size (window : list image) :
  Forall (has_size h w) (flat_map (written_of rd h w) window).
Proof.
  apply Forall_forall. intros wr Hin.
  apply in_flat_map in Hin as (x & _ & Hx).
  unfold written_of in Hx.
  destruct (rd (p_str (snd x))) as [fr|]; [|destruct Hx].
  destruct (fst (is_bad_frame (Some fr))); [destruct Hx|].
  destruct Hx as [<-|[]]. split; reflexivity.
Qed.

Lemma first_good_spec (window : list image) (first : frame) :
  first_good rd window = Some first ->
  exists pre x post,
    window = pre ++ x :: post
    /\ Forall (fun y => accepted rd y = false) pre
    /\ rd (p_str (snd x)) = Some first
    /\ accepted rd x = true.
Proof.
  induction window as [|[ts p] window IH]; [discriminate|].
  cbn [first_good].
  assert (Hacc : accepted rd (ts, p)
                 = negb (fst (is_bad_frame (rd (p_str p)))))
    by reflexivity.
  destruct (rd (p_str p)) as [fr|] eqn:Er.
  - destruct (fst (is_bad_frame (Some fr))) eqn:Eb.
    + intros H. destruct (IH H) as (pre & x & post & -> & Hp & Hx & Ha).
      exists ((ts, p) :: pre), x, post. repeat split; auto.
    + intros [= <-]. exists [], (ts, p), window. repeat split; auto.
  - intros H. destruct (IH H) as (pre & x & post & -> & Hp & Hx & Ha).
    exists ((ts, p) :: pre), x, post. repeat split; auto.
Qed.

End Assembly.

(** The assembly loop hands the writer exactly the frames of the accepted
    records of the window, in window order and each at the writer's size;
    the instants it keeps are theirs, and [skipped] counts the rejected
    records (undecodable files included). *)
Theorem assemble_writes_accepted_in_order (rd : str -> option frame)
  (h w : Z) (window : list image) :
  let st := assemble rd h w window in
  map (fun wr => Some (wr_src wr)) (frames st)
  = map (fun x => rd (p_str (snd x))) (filter (accepted rd) window)
  /\ Forall (has_size h w) (frames st)
  /\ used_times st = map instant (filter (accepted rd) window)
  /\ used st = Z.of_nat (List.length (filter (accepted rd) window))
  /\ skipped st = Z.of_nat (List.length (filter (rejected rd) window)).
Proof.
  intros st.
  destruct (assemble_fold_effect rd h w window assembly_init)
    as (H1 & H2 & H3).
  fold (assemble rd h w window) in H1, H2, H3. fold st in H1, H2, H3.
  simpl in H1, H2, H3.
  rewrite H1, H2, H3.
  split; [apply written_of_sources|].
  split; [apply written_of_size|].
  split; [reflexivity|]. split; [|reflexivity].
  unfold st, assemble. rewrite assemble_fold_used. reflexivity.
Qed.

(* ===================================================================== *)
(** ** Successful runs *)
(* ===================================================================== *)

Lemma fold_min_le_init (l : list datetime) (t : datetime) :
  dt_leb (fold_left min_step l t) t = true.
Proof.
  revert t; induction l as [|x l IH]; intros t; simpl.
  - apply dt_leb_refl.
  - unfold min_step at 2. destruct (dt_ltb x t) eqn:E.
    + eapply dt_leb_trans; [apply IH|apply dt_ltb_incl, E].
    + apply IH.
Qed.

Lemma fold_min_lower (l : list datetime) (t x : datetime) :
  In x (t :: l) -> dt_leb (fold_left min_step l t) x = true.
Proof.
  revert t; induction l as [|y l IH]; intros t [<-|H]; simpl.
  - apply dt_leb_refl.
  - destruct H.
  - apply (fold_min_le_init (y :: l)).
  - destruct H as [<-|H].
    + eapply dt_leb_trans; [apply fold_min_le_init|].
      unfold min_step. destruct (dt_ltb y t) eqn:E; [apply dt_leb_refl|].
      rewrite dt_ltb_leb in E. now destruct (dt_leb t y).
    + apply IH. now right.
Qed.

Lemma fold_min_in (l : list datetime) (t : datetime) :
  In (fold_left min_step l t) (t :: l).
Proof.
  revert t; induction l as [|y l IH]; intros t; simpl.
  - now left.
  - specialize (IH (min_step t y)). destruct IH as [H|H].
    + rewrite <- H. unfold min_step. destruct (dt_ltb y t); auto.
    + auto.
Qed.

Lemma py_min_spec (l : list datetime) (m : datetime) :
  py_min l = Ok m ->
  In m l /\ forall x, In x l -> dt_leb m x = true.
Proof.
  destruct l as [|t l]; [discriminate|]. intros [= <-]. split.
  - apply fold_min_in.
  - intros x Hx. now apply fold_min_lower.
Qed.

Lemma py_max_inv (l : list datetime) (m : datetime) :
  py_max l = Ok m ->
  In m l /\ forall x, In x l -> dt_leb x m = true.
Proof.
  destruct l as [|t l]; [discriminate|]. intros [= <-]. split.
  - apply fold_max_in.
  - intros x Hx. now apply fold_max_upper.
Qed.

(** The only way [main] returns status 0. *)
Lemma main_success_inv (wd : world) (o : outcome) :
  main wd = Ok o -> exit_code o = 0 ->
  exists images s e sl first lo hi,
    gather_images (fs wd) = Ok images
    /\ compute_window_utc wd images = Ok (s, e, sl)
    /\ first_good (imread wd) (select_window s e images) = Some first
    /\ let st := assemble (imread wd) (shape_h first) (shape_w first)
                   (select_window s e images) in
       py_min (used_times st) = Ok lo
       /\ py_max (used_times st) = Ok hi
       /\ o = mkOutcome 0
                [Saved; UsedSkipped (used st) (skipped st); FrameRange lo hi]
                (Some (frames st)).
Proof.
  unfold main.
  destruct (gather_images (fs wd)) as [images|] eqn:Eg; cbn [bind];
    [|discriminate].
  destruct images as [|x0 images0]; [intros [= <-]; discriminate|].
  remember (x0 :: images0) as images eqn:Ei.
  destruct (compute_window_utc wd images) as [[[s e] sl]|] eqn:Ec;
    cbn [bind]; [|discriminate].
  destruct (select_window s e images) as [|y0 window0] eqn:Ew;
    [intros [= <-]; discriminate|].
  remember (y0 :: window0) as window eqn:Ewd.
  destruct (first_good (imread wd) window) as [first|] eqn:Ef;
    [|intros [= <-]; discriminate].
  set (st := assemble (imread wd) (shape_h first) (shape_w first) window).
  destruct (used st =? 0); [intros [= <-]; discriminate|].
  destruct (py_min (used_times st)) as [lo|] eqn:Elo; cbn [bind];
    [|discriminate].
  destruct (py_max (used_times st)) as [hi|] eqn:Ehi; cbn [bind];
    [|discriminate].
  intros [= <-] _.
  exists images, s, e, sl, first, lo, hi.
  rewrite Ew. split; [reflexivity|]. split; [exact Ec|].
  split; [exact Ef|]. cbv zeta. fold st.
  split; [exact Elo|]. split; [exact Ehi|reflexivity].
Qed.

Lemma flat_map_written_of_rejected (rd : str -> option frame) (h w : Z)
  (pre : list image) :
  Forall (fun y => accepted rd y = false) pre ->
  flat_map (written_of rd h w) pre = [].
Proof.
  induction 1 as [|y pre Hy _ IH]; [reflexivity|].
  cbn [flat_map]. now rewrite (written_of_rejected rd h w y Hy), IH.
Qed.

Lemma assemble_frames (rd : str -> option frame) (h w : Z)
  (window : list image) :
  frames (assemble rd h w window) = flat_map (written_of rd h w) window
  /\ used_times (assemble rd h w window)
     = map instant (filter (accepted rd) window).
Proof.
  destruct (assemble_fold_effect rd h w window assembly_init)
    as (H1 & H2 & _).
  split; [exact H1|exact H2].
Qed.

(** On a run that returns status 0, the writer's size is the size of the
    first frame of the window that decodes and is accepted: that frame is
    the first one written, at its own size, and every later frame is
    written at that size. *)
Theorem output_size_is_first_accepted_frame (wd : world) (o : outcome) :
  main wd = Ok o -> exit_code o = 0 ->
  exists images s e sl pre x post first rest,
    gather_images (fs wd) = Ok images
    /\ compute_window_utc wd images = Ok (s, e, sl)
    /\ select_window s e images = pre ++ x :: post
    /\ Forall (fun y => accepted (imread wd) y = false) pre
    /\ imread wd (p_str (snd x)) = Some first
    /\ accepted (imread wd) x = true
    /\ video o
       = Some (mkWritten first (shape_h first) (shape_w first) :: rest)
    /\ Forall (has_size (shape_h first) (shape_w first)) rest.
Proof.
  intros Hm H0.
  destruct (main_success_inv wd o Hm H0)
    as (images & s & e & sl & first & lo & hi & Hg & Hc & Hf & _ & _ & ->).
  destruct (first_good_spec _ _ _ Hf) as (pre & x & post & Hw & Hp & Hx & Ha).
  exists images, s, e, sl, pre, x, post, first,
    (flat_map (written_of (imread wd) (shape_h first) (shape_w first)) post).
  repeat (split; [assumption|]).
  cbn [video].
  destruct (assemble_frames (imread wd) (shape_h first) (shape_w first)
              (select_window s e images)) as [-> _].
  rewrite Hw, flat_map_app. cbn [flat_map].
  rewrite (flat_map_written_of_rejected _ _ _ pre Hp).
  destruct (written_of_accepted (imread wd) (shape_h first) (shape_w first)
              x Ha) as (fr & Hr & ->).
  rewrite Hx in Hr. injection Hr as <-.
  split; [reflexivity|]. apply written_of_size.
Qed.

Lemma output_size_is_first_accepted_frame_witness :
  let wd := sample_world sample_images sample_legacy sample_now
              sample_imread in
  exists o images s e sl pre x post first rest,
    main wd = Ok o /\ exit_code o = 0
    /\ gather_images (fs wd) = Ok images
    /\ compute_window_utc wd images = Ok (s, e, sl)
    /\ select_window s e images = pre ++ x :: post
    /\ Forall (fun y => accepted (imread wd) y = false) pre
    /\ imread wd (p_str (snd x)) = Some first
    /\ accepted (imread wd) x = true
    /\ video o
       = Some (mkWritten first (shape_h first) (shape_w first) :: rest)
    /\ Forall (has_size (shape_h first) (shape_w first)) rest.
Proof.
  intros wd.
  destruct (main wd) as [o|] eqn:E; [|vm_compute in E; discriminate E].
  assert (H0 : exit_code o = 0).
  { vm_compute in E. injection E as <-. reflexivity. }
  destruct (output_size_is_first_accepted_frame wd o E H0)
    as (images & s & e & sl & pre & x & post & first & rest & H).
  exists o, images, s, e, sl, pre, x, post, first, rest.
  split; [reflexivity|]. split; [exact H0|exact H].
Defined.

(** On a run that returns status 0, the printed frame range [lo, hi] lies
    inside the window, its two ends are instants of accepted records of
    the window, and the instant of every accepted record lies between
    them. *)
Theorem frame_range_within_window (wd : world) (o : outcome) :
  main wd = Ok o -> exit_code o = 0 ->
  exists images s e sl u k lo hi,
    gather_images (fs wd) = Ok images
    /\ compute_window_utc wd images = Ok (s, e, sl)
    /\ printed o = [Saved; UsedSkipped u k; FrameRange lo hi]
    /\ dt_le s lo /\ dt_le lo hi /\ dt_le hi e
    /\ (exists x, In x (select_window s e images)
                  /\ accepted (imread wd) x = true /\ instant x = lo)
    /\ (exists x, In x (select_window s e images)
                  /\ accepted (imread wd) x = true /\ instant x = hi)
    /\ forall x, In x (select_window s e images) ->
                 accepted (imread wd) x = true ->
                 dt_le lo (instant x) /\ dt_le (instant x) hi.
Proof.
  intros Hm H0.
  destruct (main_success_inv wd o Hm H0)
    as (images & s & e & sl & first & lo & hi & Hg & Hc & Hf & Hlo & Hhi & ->).
  destruct (assemble_frames (imread wd) (shape_h first) (shape_w first)
              (select_window s e images)) as [_ Hut].
  rewrite Hut in Hlo, Hhi.
  apply py_min_spec in Hlo as [Hlo_in Hlo_lb].
  apply py_max_inv in Hhi as [Hhi_in Hhi_ub].
  assert (Hsrc : forall t,
             In t (map instant
                     (filter (accepted (imread wd))
                        (select_window s e images))) ->
             exists x, In x (select_window s e images)
                       /\ accepted (imread wd) x = true /\ instant x = t).
  { intros t Ht. apply in_map_iff in Ht as (x & <- & Hx).
    apply filter_In in Hx as [Hx Ha]. now exists x. }
  assert (Hwin : forall x, In x (select_window s e images) ->
                           dt_le s (instant x) /\ dt_le (instant x) e).
  { intros x Hx. unfold select_window in Hx.
    apply filter_In in Hx as [_ Hx]. now apply andb_prop in Hx. }
  destruct (Hsrc lo Hlo_in) as (xl & Hxl & Hal & El).
  destruct (Hsrc hi Hhi_in) as (xh & Hxh & Hah & Eh).
  do 8 eexists.
  split; [exact Hg|]. split; [exact Hc|]. split; [reflexivity|].
  split; [rewrite <- El; apply (Hwin xl Hxl)|].
  split; [apply Hlo_lb, Hhi_in|].
  split; [rewrite <- Eh; apply (Hwin xh Hxh)|].
  split; [now exists xl|]. split; [now exists xh|].
  intros x Hx Ha.
  assert (Hin : In (instant x)
                  (map instant
                     (filter (accepted (imread wd))
                        (select_window s e images)))).
  { apply in_map. apply filter_In. auto. }
  split; [apply Hlo_lb, Hin|apply Hhi_ub, Hin].
Qed.

Lemma frame_range_within_window_witness :
  let wd := sample_world sample_images sample_legacy sample_now
              sample_imread in
  exists o images s e sl u k lo hi,
    main wd = Ok o /\ exit_code o = 0
    /\ gather_images (fs wd) = Ok images
    /\ compute_window_utc wd images = Ok (s, e, sl)
    /\ printed o = [Saved; UsedSkipped u k; FrameRange lo hi]
    /\ dt_le s lo /\ dt_le lo hi /\ dt_le hi e
    /\ (exists x, In x (select_window s e images)
                  /\ accepted (imread wd) x = true /\ instant x = lo)
    /\ (exists x, In x (select_window s e images)
                  /\ accepted (imread wd) x = true /\ instant x = hi)
    /\ forall x, In x (select_window s e images) ->
                 accepted (imread wd) x = true ->
                 dt_le lo (instant x) /\ dt_le (instant x) hi.
Proof.
  intros wd.
  destruct (main wd) as [o|] eqn:E; [|vm_compute in E; discriminate E].
  assert (H0 : exit_code o = 0).
  { vm_compute in E. injection E as <-. reflexivity. }
  destruct (frame_range_within_window wd o E H0)
    as (images & s & e & sl & u & k & lo & hi & H).
  exists o, images, s, e, sl, u, k, lo, hi.
  split; [reflexivity|]. split; [exact H0|exact H].
Defined.

(** When gathering returns, [main] returns too, through exactly one of
    four exits: status 1 with "no images found" for an empty catalog,
    status 1 with "no images within the window" when the window selects
    nothing, status 1 with "no valid frames" when every record of the
    window is rejected, and status 0 with at least one frame written and
    counters adding up to the window size.  With both loops reading each
    file the same way, the "no usable frames after filtering" exit is
    never taken. *)
Theorem main_exits_when_gathering_returns (wd : world)
  (images : list image) :
  gather_images (fs wd) = Ok images ->
  exists o,
    main wd = Ok o
    /\ ((images = [] /\ o = mkOutcome 1 [NoImagesFound] None)
        \/ (images <> []
            /\ exists s e sl,
                 compute_window_utc wd images = Ok (s, e, sl)
                 /\ let window := select_window s e images in
                    (window = [] /\ o = mkOutcome 1 [NoImagesInWindow] None)
                    \/ (window <> []
                        /\ (forall x, In x window ->
                              accepted (imread wd) x = false)
                        /\ o = mkOutcome 1 [NoValidFrames] None)
                    \/ ((exists x, In x window
                                   /\ accepted (imread wd) x = true)
                        /\ exit_code o = 0
                        /\ exists fr u k lo hi,
                             video o = Some fr /\ fr <> []
                             /\ printed o
                                = [Saved; UsedSkipped u k; FrameRange lo hi]
                             /\ 1 <= u
                             /\ u = Z.of_nat (List.length fr)
                             /\ u + k = Z.of_nat (List.length window)))).
Proof. exact (main_exit_cases wd images). Qed.

Lemma main_exits_when_gathering_returns_witness :
  let wd := sample_world sample_images sample_legacy sample_now
              (fun _ => Some flat_frame) in
  exists images o,
    gather_images (fs wd) = Ok images
    /\ main wd = Ok o
    /\ o = mkOutcome 1 [NoValidFrames] None.
Proof.
  intros wd.
  destruct (gather_images (fs wd)) as [images|] eqn:Eg;
    [|vm_compute in Eg; discriminate Eg].
  destruct (main_exits_when_gathering_returns wd images Eg) as (o & Ho & _).
  exists images, o. split; [reflexivity|]. split; [exact Ho|].
  assert (E : main wd = Ok (mkOutcome 1 [NoValidFrames] None))
    by (vm_compute; reflexivity).
  rewrite E in Ho. now injection Ho as <-.
Defined.

(** In the output name of a run, the window end is written in a form the
    codec reads back: the name is the fixed prefix, the local start, an
    underscore, then a token followed by "_24fps.mp4" that the codec
    decodes to the window end. *)
Theorem out_name_end_token_decodes (wd : world) (images : list image)
  (s e : datetime) (sl : aware) :
  gather_images (fs wd) = Ok images ->
  compute_window_utc wd images = Ok (s, e, sl) ->
  out_name sl e
  = lit "timelapse_last7days_" ++ strftime_Ymd_HMS (wall sl)
    ++ [underscore] ++ strftime_Ymd_HMS e ++ lit "_24fps.mp4"
  /\ PAT_8 (strftime_Ymd_HMS e ++ lit "_24fps.mp4")
     = Some (strftime_Ymd_HMS e)
  /\ decode_name (strftime_Ymd_HMS e ++ lit "_24fps.mp4") = Ok (Some e).
Proof.
  intros Hg Hc. split; [reflexivity|].
  apply compute_window_utc_inv in Hc as (_ & _ & Hin & _).
  apply in_map_iff in Hin as ([t p] & <- & Hp).
  destruct (catalog_record_origin _ _ _ _ Hg Hp)
    as (_ & _ & _ & _ & Hy & Hnew).
  exact (strftime_then_decode _ _ _ _ _ _ _ _ Hnew Hy).
Qed.

Lemma out_name_end_token_decodes_witness :
  let wd := sample_world sample_images sample_legacy sample_now
              sample_imread in
  let t12 := mkDatetime 2025 7 12 10 0 0 0 in
  let sl := mkAware (mkDatetime 2025 7 8 7 0 0 0) 7200 in
  out_name sl t12
  = lit "timelapse_last7days_20250708_070000_20250712_100000_24fps.mp4"
  /\ decode_name (strftime_Ymd_HMS t12 ++ lit "_24fps.mp4") = Ok (Some t12).
Proof.
  intros wd t12 sl. split; [reflexivity|].
  destruct (gather_images (fs wd)) as [images|] eqn:Eg;
    [|vm_compute in Eg; discriminate Eg].
  apply (out_name_end_token_decodes wd images
           (mkDatetime 2025 7 8 5 0 0 0) t12 sl Eg).
  vm_compute in Eg. injection Eg as <-. vm_compute. reflexivity.
Defined.

(* ===================================================================== *)
(** ** The catalog and the order of the directory listings *)
(* ===================================================================== *)

Section ScanOrder.

Lemma scan_one_acc (acc : list image) (p : path) :
  scan_one acc p = let* e := scan_one [] p in Ok (acc ++ e).
Proof.
  rewrite !scan_one_decode.
  destruct (p_is_file p && in_exts (lower (suffix p)));
    [|cbn [bind]; now rewrite app_nil_r].
  destruct (decode_name (p_name p)) as [[t|]|]; cbn [bind];
    [reflexivity|now rewrite app_nil_r|reflexivity].
Qed.

Lemma scan_acc (ps : list path) (acc : list image) :
  scan acc ps = let* c := scan [] ps in Ok (acc ++ c).
Proof.
  revert acc; induction ps as [|p ps IH]; intros acc; cbn [scan].
  - cbn [bind]. now rewrite app_nil_r.
  - rewrite (scan_one_acc acc p).
    destruct (scan_one [] p) as [e|]; cbn [bind]; [|reflexivity].
    rewrite (IH (acc ++ e)), (IH e).
    destruct (scan [] ps) as [c|]; cbn [bind]; [|reflexivity].
    now rewrite app_assoc.
Qed.

Lemma scan_cons (p : path) (ps : list path) :
  scan [] (p :: ps)
  = let* e := scan_one [] p in let* c := scan [] ps in Ok (e ++ c).
Proof.
  cbn [scan]. destruct (scan_one [] p) as [e|]; cbn [bind]; [|reflexivity].
  apply scan_acc.
Qed.

Lemma scan_permutation (ps ps' : list path) :
  Permutation ps ps' ->
  forall c, scan [] ps = Ok c ->
            exists c', scan [] ps' = Ok c' /\ Permutation c c'.
Proof.
  induction 1 as [|x l l' Hp IH|x y l|l l' l'' H1 IH1 H2 IH2]; intros c.
  - intros H. now exists c.
  - rewrite !scan_cons.
    destruct (scan_one [] x) as [e|]; cbn [bind]; [|discriminate].
    destruct (scan [] l) as [c0|]; cbn [bind]; [|discriminate].
    intros [= <-]. destruct (IH c0 eq_refl) as (c0' & -> & Hc).
    cbn [bind]. exists (e ++ c0'). split; [reflexivity|].
    now apply Permutation_app_head.
  - rewrite !scan_cons.
    destruct (scan_one [] y) as [ey|]; cbn [bind]; [|discriminate].
    destruct (scan_one [] x) as [ex|]; cbn [bind]; [|discriminate].
    destruct (scan [] l) as [c0|]; cbn [bind]; [|discriminate].
    intros [= <-]. exists (ex ++ ey ++ c0). split; [reflexivity|].
    rewrite !app_assoc. apply Permutation_app_tail, Permutation_app_comm.
  - intros H. destruct (IH1 c H) as (c1 & Hc1 & P1).
    destruct (IH2 c1 Hc1) as (c2 & Hc2 & P2).
    exists c2. split; [exact Hc2|]. now transitivity c1.
Qed.

Lemma sorted_instants (l : list image) :
  StronglySorted instant_le l -> StronglySorted dt_le (map instant l).
Proof.
  induction 1 as [|x l Hs IH Hall]; simpl; constructor; [exact IH|].
  apply Forall_map. exact Hall.
Qed.

(** Two sorted lists of instants with the same elements are equal. *)
Lemma sorted_permutation_eq (ka kb : list datetime) :
  StronglySorted dt_le ka -> StronglySorted dt_le kb ->
  Permutation ka kb -> ka = kb.
Proof.
  revert kb; induction ka as [|a ka IH]; intros kb Ha Hb Hp.
  - now apply Permutation_nil in Hp.
  - destruct kb as [|b kb];
      [apply Permutation_sym, Permutation_nil in Hp; discriminate|].
    inversion Ha as [|? ? Hsa Halla]; subst.
    inversion Hb as [|? ? Hsb Hallb]; subst.
    rewrite Forall_forall in Halla, Hallb.
    assert (Hab : a = b).
    { apply dt_leb_antisym.
      - assert (Hin : In b (a :: ka))
          by (apply (Permutation_in _ (Permutation_sym Hp)); now left).
        destruct Hin as [->|Hin]; [apply dt_leb_refl|now apply Halla].
      - assert (Hin : In a (b :: kb))
          by (apply (Permutation_in _ Hp); now left).
        destruct Hin as [->|Hin]; [apply dt_leb_refl|now apply Hallb]. }
    subst b. f_equal. apply IH; auto.
    now apply Permutation_cons_inv in Hp.
Qed.

End ScanOrder.

(** The timeline does not depend on the order in which the directory
    iterators yield the files: two listings with the same entries, when
    gathering returns on one, give on the other a catalog with the same
    records and the same sequence of instants (records sharing an instant
    may change places). *)
Theorem timeline_independent_of_listing_order (fs1 fs2 : filesystem)
  (catalog : list image) :
  Permutation (scan_order fs1) (scan_order fs2) ->
  gather_images fs1 = Ok catalog ->
  exists catalog',
    gather_images fs2 = Ok catalog'
    /\ map instant catalog' = map instant catalog
    /\ Permutation catalog catalog'.
Proof.
  intros Hp. rewrite !gather_images_discovered. unfold discovered.
  destruct (scan [] (scan_order fs1)) as [c|] eqn:E; cbn [bind];
    [|discriminate].
  intros [= <-].
  destruct (scan_permutation _ _ Hp c E) as (c' & -> & Hc).
  cbn [bind]. exists (sort_by_key c'). split; [reflexivity|].
  assert (Hperm : Permutation (sort_by_key c) (sort_by_key c')).
  { rewrite <- (sort_by_key_perm c), <- (sort_by_key_perm c'). exact Hc. }
  split; [|exact Hperm].
  apply sorted_permutation_eq.
  - apply sorted_instants, sort_by_key_sorted.
  - apply sorted_instants, sort_by_key_sorted.
  - apply Permutation_map, Permutation_sym, Hperm.
Qed.

Lemma timeline_independent_of_listing_order_witness :
  let a := file_in "images/w29" "a_20250712_100000.jpg" in
  let b := file_in "images/w29" "b_250711_090000.PNG" in
  let c := file_in "images/w29" "c_20250712_100000.jpg" in
  let t11 := mkDatetime 2025 7 11 9 0 0 0 in
  let t12 := mkDatetime 2025 7 12 10 0 0 0 in
  let fs1 := mkFs true [a; b; c] false [] in
  let fs2 := mkFs true [c; b; a] false [] in
  gather_images fs1 = Ok [(t11, b); (t12, a); (t12, c)]
  /\ gather_images fs2 = Ok [(t11, b); (t12, c); (t12, a)]
  /\ exists catalog',
       gather_images fs2 = Ok catalog'
       /\ map instant catalog' = map instant [(t11, b); (t12, a); (t12, c)]
       /\ Permutation [(t11, b); (t12, a); (t12, c)] catalog'.
Proof.
  intros a b c t11 t12 fs1 fs2.
  split; [reflexivity|]. split; [reflexivity|].
  apply (timeline_independent_of_listing_order fs1 fs2).
  - exact (Permutation_rev [a; b; c]).
  - reflexivity.
Defined.

(* ===================================================================== *)
(** ** The frames the classifier accepts *)
(* ===================================================================== *)

Section Acceptance.

Lemma Qlt_bool_true (x y : Q) : Qlt_bool x y = true <-> (x < y)%Q.
Proof.
  unfold Qlt_bool. rewrite negb_true_iff, <- not_true_iff_false,
    Qle_bool_iff. split; [apply Qnot_le_lt|apply Qlt_not_le].
Qed.

Lemma Qlt_bool_false (x y : Q) : Qlt_bool x y = false <-> (y <= x)%Q.
Proof.
  unfold Qlt_bool. rewrite negb_false_iff. apply Qle_bool_iff.
Qed.

Lemma Qle_bool_false (x y : Q) : Qle_bool x y = false <-> (y < x)%Q.
Proof.
  rewrite <- not_true_iff_false, Qle_bool_iff.
  split; [apply Qnot_le_lt|apply Qlt_not_le].
Qed.

Lemma ratio_below_iff (a : Z) (b : positive) (n t : Z) :
  0 < t ->
  (Qle_bool (a # b) (ratio n t) = false <-> n * Zpos b < a * t).
Proof.
  intros Ht. rewrite <- not_true_iff_false, (ratio_ge_iff a b n t Ht). lia.
Qed.

End Acceptance.

(** The exact set of frames the classifier accepts: a decoded frame is
    accepted if and only if both dimensions are at least 100, the standard
    deviation is at least 8, fewer than 55 in 100 of its pixels are at or
    below the black level, fewer than 55 in 100 at or above the white
    level, no histogram bin holds 55 in 100 of the pixels, its halves are
    tolerated (the float difference of their means at most 60 in absolute
    value, or neither half near black or near white) and the Laplacian
    variance is at most 1000000. *)
Theorem is_bad_frame_accepts_iff (fr : frame) :
  fst (is_bad_frame (Some fr)) = false
  <-> MIN_DIM <= shape_h fr /\ MIN_DIM <= shape_w fr
      /\ (MIN_STD <= gray_std fr)%Q
      /\ 100 * n_black fr < 55 * total_px fr
      /\ 100 * n_white fr < 55 * total_px fr
      /\ 100 * hist_max fr < 55 * total_px fr
      /\ halves_tolerated fr
      /\ (lap_var fr <= LAPL_VAR_MAX)%Q.
Proof.
  rewrite is_bad_frame_spec_classify.
  unfold spec_classify, spec_checks_in_order, first_failure,
    check_too_small, check_low_std, check_mostly_black, check_mostly_white,
    check_dominant_bin, check_half, check_excessive_lap, halves_tolerated,
    black_ratio, white_ratio, dom_ratio,
    PERCENT_BLACK, PERCENT_WHITE, DOMINANT_BIN_RATIO.
  destruct ((shape_h fr <? MIN_DIM) || (shape_w fr <? MIN_DIM)) eqn:Ed.
  { split; [discriminate|]. intros (Hh & Hw & _).
    apply orb_true_iff in Ed as [Ed|Ed]; apply Z.ltb_lt in Ed; lia. }
  apply orb_false_iff in Ed as [Eh Ew]. apply Z.ltb_ge in Eh, Ew.
  assert (Hpos : 0 < total_px fr)
    by (unfold total_px, MIN_DIM in *; nia).
  destruct (Qlt_bool (gray_std fr) MIN_STD) eqn:Es.
  { split; [discriminate|]. intros (_ & _ & Hs & _).
    apply Qlt_bool_true in Es. now apply Qlt_not_le in Es. }
  apply Qlt_bool_false in Es.
  destruct (Qle_bool (55 # 100) (ratio (n_black fr) (total_px fr))) eqn:Eb.
  { split; [discriminate|]. intros (_ & _ & _ & Hb & _).
    apply (ratio_ge_iff 55 100 _ _ Hpos) in Eb. lia. }
  apply (ratio_below_iff 55 100 _ _ Hpos) in Eb.
  destruct (Qle_bool (55 # 100) (ratio (n_white fr) (total_px fr))) eqn:Ewh.
  { split; [discriminate|]. intros (_ & _ & _ & _ & Hb & _).
    apply (ratio_ge_iff 55 100 _ _ Hpos) in Ewh. lia. }
  apply (ratio_below_iff 55 100 _ _ Hpos) in Ewh.
  destruct (Qle_bool (55 # 100) (ratio (hist_max fr) (total_px fr))) eqn:Eh'.
  { split; [discriminate|]. intros (_ & _ & _ & _ & _ & Hb & _).
    apply (ratio_ge_iff 55 100 _ _ Hpos) in Eh'. lia. }
  apply (ratio_below_iff 55 100 _ _ Hpos) in Eh'.
  destruct (Qlt_bool LAPL_VAR_MAX (lap_var fr)) eqn:El.
  { apply Qlt_bool_true in El. split.
    - repeat match goal with
             | |- context [if ?b then _ else _] => destruct b
             end; discriminate.
    - intros (_ & _ & _ & _ & _ & _ & _ & Hl).
      now apply Qlt_not_le in El. }
  apply Qlt_bool_false in El.
  destruct (Qlt_bool HALF_DIFF_THRESH
              (Qabs (fl_sub (left_mean fr) (right_mean fr)))) eqn:Ediff.
  - apply Qlt_bool_true in Ediff.
    destruct (Qle_bool (left_mean fr) (BLACK_LEVEL + (10 # 1))
              || Qle_bool (right_mean fr) (BLACK_LEVEL + (10 # 1))) eqn:Ek.
    { split; [discriminate|].
      intros (_ & _ & _ & _ & _ & _ & [Hd|(H1 & H2 & _)] & _).
      - now apply Qlt_not_le in Ediff.
      - apply orb_true_iff in Ek as [Ek|Ek]; apply Qle_bool_iff in Ek;
          [now apply Qlt_not_le in H1|now apply Qlt_not_le in H2]. }
    apply orb_false_iff in Ek as [Ek1 Ek2].
    apply Qle_bool_false in Ek1, Ek2.
    destruct (Qle_bool (WHITE_LEVEL - (10 # 1)) (left_mean fr)
              || Qle_bool (WHITE_LEVEL - (10 # 1)) (right_mean fr)) eqn:Ew'.
    { split; [discriminate|].
      intros (_ & _ & _ & _ & _ & _ & [Hd|(_ & _ & H3 & H4)] & _).
      - now apply Qlt_not_le in Ediff.
      - apply orb_true_iff in Ew' as [Ew'|Ew']; apply Qle_bool_iff in Ew';
          [now apply Qlt_not_le in H3|now apply Qlt_not_le in H4]. }
    apply orb_false_iff in Ew' as [Ew1 Ew2].
    apply Qle_bool_false in Ew1, Ew2.
    split; [intros _|reflexivity].
    repeat (split; [assumption || lia|]). split; [|exact El].
    right. auto.
  - apply Qlt_bool_false in Ediff.
    split; [intros _|reflexivity].
    repeat (split; [assumption || lia|]). split; [|exact El].
    now left.
Qed.

(* ===================================================================== *)
(** ** The gallery viewer *)
(* ===================================================================== *)

Section ViewerCache.

Import Viewer.

Lemma str_eqb_eq (a b : str) : str_eqb a b = true <-> a = b.
Proof.
  unfold str_eqb. rewrite String.eqb_eq. split; [|now intros ->].
  intros H. apply (f_equal list_ascii_of_string) in H.
  now rewrite !list_ascii_of_string_of_list_ascii in H.
Qed.

Lemma cache_has_In (u : str) (c : list str) :
  cache_has u c = true <-> In u c.
Proof.
  unfold cache_has. rewrite existsb_exists. split.
  - intros (x & Hx & E). apply str_eqb_eq in E. now subst.
  - intros H. exists u. split; [exact H|]. now apply str_eqb_eq.
Qed.

Lemma cache_add_spec (u : str) (c : list str) :
  incl c (cache_add u c)
  /\ In u (cache_add u c)
  /\ (forall x, In x (cache_add u c) -> x = u \/ In x c)
  /\ (List.length (cache_add u c) <= S (List.length c))%nat.
Proof.
  unfold cache_add. destruct (cache_has u c) eqn:E.
  - apply cache_has_In in E. repeat split; auto.
    apply incl_refl.
  - repeat split.
    + apply incl_appl, incl_refl.
    + apply in_or_app. right. now left.
    + intros x Hx. apply in_app_or in Hx as [Hx|[<-|[]]]; auto.
    + rewrite length_app. simpl. lia.
Qed.

Lemma index_Some_range {A : Type} (arr : list A) (i : Z) :
  0 <= i < len arr -> exists a, index arr i = Some a.
Proof.
  intros Hi. unfold index, len in *.
  destruct (i <? 0) eqn:E; [apply Z.ltb_lt in E; lia|].
  destruct (nth_error arr (Z.to_nat i)) as [a|] eqn:En; [now exists a|].
  apply nth_error_None in En. lia.
Qed.

Lemma index_None_iff {A : Type} (arr : list A) (i : Z) :
  index arr i = None <-> i < 0 \/ len arr <= i.
Proof.
  unfold index, len. destruct (i <? 0) eqn:E.
  - apply Z.ltb_lt in E. split; auto.
  - apply Z.ltb_ge in E. rewrite nth_error_None. lia.
Qed.

Lemma prefetch_loop_spec (imgs : list img) (n : nat) (i : Z)
  (c : list str) :
  0 <= i -> ((0 < n)%nat -> i + Z.of_nat n <= len imgs) ->
  exists c',
    prefetch_loop n i imgs c = Some c'
    /\ incl c c'
    /\ (forall u, In u c' ->
          In u c
          \/ exists j im, i <= j < i + Z.of_nat n
                          /\ index imgs j = Some im /\ raw im = u)
    /\ (forall j im, i <= j < i + Z.of_nat n ->
                     index imgs j = Some im -> In (raw im) c')
    /\ (List.length c' <= List.length c + n)%nat.
Proof.
  revert i c; induction n as [|n IH]; intros i c Hi Hn.
  - exists c. simpl. split; [reflexivity|]. split; [apply incl_refl|].
    split; [auto|]. split; [intros; lia|lia].
  - cbn [prefetch_loop].
    assert (Hn' : i + Z.of_nat (S n) <= len imgs) by (apply Hn; lia).
    destruct (index_Some_range imgs i) as (im & Him); [lia|].
    rewrite Him.
    destruct (IH (i + 1) (cache_add (raw im) c)) as (c' & Hc & H1 & H2 & H3 & H4);
      [lia|lia|].
    destruct (cache_add_spec (raw im) c) as (A1 & A2 & A3 & A4).
    exists c'. split; [exact Hc|]. split; [|split; [|split]].
    + intros x Hx. apply H1, A1, Hx.
    + intros u Hu. destruct (H2 u Hu) as [Hu'|(j & im' & Hj & Hi' & Hr)].
      * destruct (A3 u Hu') as [->|Hin]; [|now left].
        right. exists i, im. repeat split; auto; lia.
      * right. exists j, im'. repeat split; auto; lia.
    + intros j im' Hj Hi'.
      destruct (Z.eq_dec j i) as [->|Hne].
      * rewrite Him in Hi'. injection Hi' as <-. apply H1, A2.
      * apply (H3 j im'); [lia|exact Hi'].
    + lia.
Qed.

End ViewerCache.

Lemma prefetchAround_stays_in_bounds_aux (idx : Z) (st : Viewer.state) :
  exists c',
    Viewer.prefetchAround idx st
    = Viewer.Return
        (Viewer.mkState (Viewer.weeks st) (Viewer.weekIndex st)
           (Viewer.images st) (Viewer.pendingIndex st) (Viewer.rafId st)
           (Viewer.raf_requests st) c' (Viewer.playing st)
           (Viewer.slider_max st) (Viewer.slider_value st)
           (Viewer.img_src st) (Viewer.loading st))
    /\ incl (Viewer.cache st) c'
    /\ (forall u, In u c' ->
          In u (Viewer.cache st)
          \/ exists j im, idx - 4 <= j <= idx + 4
                          /\ Viewer.index (Viewer.images st) j = Some im
                          /\ Viewer.raw im = u)
    /\ (forall j im, idx - 4 <= j <= idx + 4 ->
                     Viewer.index (Viewer.images st) j = Some im ->
                     In (Viewer.raw im) c')
    /\ (List.length c' <= List.length (Viewer.cache st) + 9)%nat.
Proof.
  unfold Viewer.prefetchAround, Viewer.prefetchRadius.
  destruct (Viewer.images st) as [|im0 imgs0] eqn:Ei.
  - exists (Viewer.cache st).
    split; [destruct st; cbn in *; subst; reflexivity|].
    split; [apply incl_refl|]. split; [auto|]. split; [|lia].
    intros j im _ H. unfold Viewer.index in H.
    destruct (j <? 0); [discriminate|].
    now destruct (Z.to_nat j).
  - rewrite <- Ei.
    set (lo := Z.max 0 (idx - 4)).
    set (hi := Z.min (Viewer.len (Viewer.images st) - 1) (idx + 4)).
    destruct (prefetch_loop_spec (Viewer.images st)
                (Z.to_nat (hi - lo + 1)) lo (Viewer.cache st))
      as (c' & Hc & H1 & H2 & H3 & H4); [subst lo; lia|subst lo hi; lia|].
    rewrite Hc. exists c'. split; [reflexivity|]. split; [exact H1|].
    split; [|split].
    + intros u Hu. destruct (H2 u Hu) as [Hin|(j & im & Hj & Hi & Hr)];
        [now left|].
      right. exists j, im. repeat split; auto; lia.
    + intros j im Hj Hi.
      assert (Hr : 0 <= j < Viewer.len (Viewer.images st)).
      { destruct (Z_lt_le_dec j 0) as [Hn|Hn].
        - assert (Viewer.index (Viewer.images st) j = None)
            by (apply index_None_iff; lia). congruence.
        - destruct (Z_lt_le_dec j (Viewer.len (Viewer.images st)))
            as [Hl|Hl]; [lia|].
          assert (Viewer.index (Viewer.images st) j = None)
            by (apply index_None_iff; lia). congruence. }
      apply (H3 j im); [lia|exact Hi].
    + lia.
Qed.

(** [prefetchAround] never reads outside the image list, whatever index it
    is given: it returns, changing nothing but the cache; the cache only
    grows, by at most nine entries; every new entry is the address of an
    image at most four places from the index; and all images of the list
    that close to the index are in the cache afterwards. *)
Theorem prefetchAround_stays_in_bounds (idx : Z) (st : Viewer.state) :
  exists c',
    Viewer.prefetchAround idx st
    = Viewer.Return
        (Viewer.mkState (Viewer.weeks st) (Viewer.weekIndex st)
           (Viewer.images st) (Viewer.pendingIndex st) (Viewer.rafId st)
           (Viewer.raf_requests st) c' (Viewer.playing st)
           (Viewer.slider_max st) (Viewer.slider_value st)
           (Viewer.img_src st) (Viewer.loading st))
    /\ incl (Viewer.cache st) c'
    /\ (forall u, In u c' ->
          In u (Viewer.cache st)
          \/ exists j im, idx - 4 <= j <= idx + 4
                          /\ Viewer.index (Viewer.images st) j = Some im
                          /\ Viewer.raw im = u)
    /\ (forall j im, idx - 4 <= j <= idx + 4 ->
                     Viewer.index (Viewer.images st) j = Some im ->
                     In (Viewer.raw im) c')
    /\ (List.length c' <= List.length (Viewer.cache st) + 9)%nat.
Proof. exact (prefetchAround_stays_in_bounds_aux idx st). Qed.

Lemma prefetchAround_returns (idx : Z) (st : Viewer.state) :
  exists c',
    Viewer.prefetchAround idx st
    = Viewer.Return
        (Viewer.mkState (Viewer.weeks st) (Viewer.weekIndex st)
           (Viewer.images st) (Viewer.pendingIndex st) (Viewer.rafId st)
           (Viewer.raf_requests st) c' (Viewer.playing st)
           (Viewer.slider_max st) (Viewer.slider_value st)
           (Viewer.img_src st) (Viewer.loading st))
    /\ forall im, Viewer.index (Viewer.images st) idx = Some im ->
                  In (Viewer.raw im) c'.
Proof.
  destruct (prefetchAround_stays_in_bounds_aux idx st)
    as (c' & H & _ & _ & H3 & _).
  exists c'. split; [exact H|]. intros im Him. apply (H3 idx im); [lia|exact Him].
Qed.

Lemma applyShow_cases (complete : str -> bool)
  (st : Viewer.state) (p : Z) :
  Viewer.pendingIndex st = Some p ->
  (Viewer.images st = [] ->
   exists st0, Viewer.applyShow complete st = Viewer.Throw st0
               /\ Viewer.rafId st0 = false)
  /\ (Viewer.images st <> [] ->
      exists st' im,
        Viewer.applyShow complete st = Viewer.Return st'
        /\ 0 <= Viewer.clamp_index p st < Viewer.len (Viewer.images st)
        /\ (0 <= p < Viewer.len (Viewer.images st) ->
            Viewer.clamp_index p st = p)
        /\ Viewer.index (Viewer.images st) (Viewer.clamp_index p st)
           = Some im
        /\ Viewer.rafId st' = false
        /\ Viewer.images st' = Viewer.images st
        /\ In (Viewer.raw im) (Viewer.cache st')
        /\ (if Viewer.cache_has (Viewer.raw im) (Viewer.cache st)
               && complete (Viewer.raw im)
            then Viewer.img_src st' = Some (Viewer.raw im)
                 /\ Viewer.loading st' = false
            else Viewer.img_src st' = Viewer.img_src st
                 /\ Viewer.loading st' = true)).
Proof.
  intros Hp. unfold Viewer.applyShow. cbn [Viewer.pendingIndex].
  rewrite Hp. unfold Viewer.clamp_index. cbn [Viewer.images].
  split.
  - intros He. rewrite He.
    assert (Hn : Viewer.index (@nil Viewer.img)
                   (Z.min (Z.max 0 p) (Viewer.len (@nil Viewer.img) - 1))
                 = None)
      by (apply index_None_iff; unfold Viewer.len; simpl; lia).
    rewrite Hn. eexists. split; reflexivity.
  - intros Hne.
    assert (Hlen : 0 < Viewer.len (Viewer.images st)).
    { unfold Viewer.len. destruct (Viewer.images st); [congruence|].
      simpl. lia. }
    set (idx := Z.min (Z.max 0 p) (Viewer.len (Viewer.images st) - 1)).
    assert (Hidx : 0 <= idx < Viewer.len (Viewer.images st))
      by (subst idx; lia).
    destruct (index_Some_range (Viewer.images st) idx Hidx) as (im & Him).
    rewrite Him.
    cbn [Viewer.weeks Viewer.weekIndex Viewer.images Viewer.pendingIndex
         Viewer.rafId Viewer.raf_requests Viewer.cache Viewer.playing
         Viewer.slider_max Viewer.slider_value Viewer.img_src
         Viewer.loading].
    destruct (Viewer.cache_has (Viewer.raw im) (Viewer.cache st)
              && complete (Viewer.raw im)) eqn:Ec;
      match goal with
      | |- context [Viewer.prefetchAround idx ?s] =>
          destruct (prefetchAround_returns idx s) as (c' & Hc & Hin)
      end;
      rewrite Hc; eexists; exists im; rewrite Ec;
      (split; [reflexivity|]); (split; [exact Hidx|]);
      (split; [intros Hr; subst idx; lia|]);
      (split; [reflexivity || exact Him|]);
      cbn [Viewer.rafId Viewer.images Viewer.cache Viewer.img_src
           Viewer.loading];
      repeat split; auto; try (apply Hin; exact Him).
Qed.

(** [applyShow] with a pending index: on an empty image list it throws (it
    reads a property of [images[-1]]); on a non-empty list it returns
    whatever index was requested, having clamped the index into the list.
    The frame handle is cleared either way, the image's address ends up in
    the cache, and the image element is switched at once exactly when the
    address was cached and its image complete; otherwise the loading badge
    is shown and the element keeps its source. *)
Theorem applyShow_clamps_into_list (complete : str -> bool)
  (st : Viewer.state) (p : Z) :
  Viewer.pendingIndex st = Some p ->
  (Viewer.images st = [] ->
   exists st0, Viewer.applyShow complete st = Viewer.Throw st0
               /\ Viewer.rafId st0 = false)
  /\ (Viewer.images st <> [] ->
      exists st' im,
        Viewer.applyShow complete st = Viewer.Return st'
        /\ 0 <= Viewer.clamp_index p st < Viewer.len (Viewer.images st)
        /\ (0 <= p < Viewer.len (Viewer.images st) ->
            Viewer.clamp_index p st = p)
        /\ Viewer.index (Viewer.images st) (Viewer.clamp_index p st)
           = Some im
        /\ Viewer.rafId st' = false
        /\ Viewer.images st' = Viewer.images st
        /\ In (Viewer.raw im) (Viewer.cache st')
        /\ (if Viewer.cache_has (Viewer.raw im) (Viewer.cache st)
               && complete (Viewer.raw im)
            then Viewer.img_src st' = Some (Viewer.raw im)
                 /\ Viewer.loading st' = false
            else Viewer.img_src st' = Viewer.img_src st
                 /\ Viewer.loading st' = true)).
Proof. exact (applyShow_cases complete st p). Qed.

Lemma applyShow_clamps_into_list_witness :
  let st := Viewer.requestShow 7
              (Viewer.mkState Viewer.sample_weeks 0
                 [Viewer.mkImg (lit "w1/a.jpg"); Viewer.mkImg (lit "w1/b.jpg");
                  Viewer.mkImg (lit "w1/c.jpg")]
                 None false 0 [] false 3 1 None false) in
  Viewer.clamp_index 7 st = 2
  /\ exists st' im,
       Viewer.applyShow (fun _ => true) st = Viewer.Return st'
       /\ Viewer.index (Viewer.images st) (Viewer.clamp_index 7 st) = Some im
       /\ In (Viewer.raw im) (Viewer.cache st').
Proof.
  intros st. split; [reflexivity|].
  destruct (proj2 (applyShow_clamps_into_list (fun _ => true) st 7 eq_refl))
    as (st' & im & H1 & _ & _ & H4 & _ & _ & H7 & _).
  - discriminate.
  - exists st', im. auto.
Defined.

(** A burst of [requestShow] calls between two frames leaves only the last
    index pending and asks the browser for at most one frame callback:
    exactly one when none was pending, none otherwise.  Nothing else
    changes. *)
Theorem requestShow_keeps_last_request (l : list Z) (i : Z)
  (st : Viewer.state) :
  let st' := fold_left (fun s j => Viewer.requestShow j s) (l ++ [i]) st in
  st' = Viewer.mkState (Viewer.weeks st) (Viewer.weekIndex st)
          (Viewer.images st) (Some i) true
          (if Viewer.rafId st then Viewer.raf_requests st
           else S (Viewer.raf_requests st))
          (Viewer.cache st) (Viewer.playing st) (Viewer.slider_max st)
          (Viewer.slider_value st) (Viewer.img_src st) (Viewer.loading st).
Proof.
  revert st; induction l as [|j l IH]; intros st; cbn [app fold_left].
  - reflexivity.
  - cbv zeta in IH. rewrite IH. unfold Viewer.requestShow.
    cbn [Viewer.weeks Viewer.weekIndex Viewer.images Viewer.rafId
         Viewer.raf_requests Viewer.cache Viewer.playing Viewer.slider_max
         Viewer.slider_value Viewer.img_src Viewer.loading].
    reflexivity.
Qed.

Section ViewerNavigation.

Import Viewer.

Lemma len_pos_iff {A : Type} (l : list A) : 0 < len l <-> l <> [].
Proof.
  unfold len. destruct l; simpl; split; try congruence; try lia.
Qed.

Lemma len_nonneg {A : Type} (l : list A) : 0 <= len l.
Proof. unfold len. lia. Qed.

Lemma loadWeek_at (i : Z) (st : state) (wk : week) :
  index (weeks st) i = Some wk ->
  exists st',
    loadWeek i st = Return st'
    /\ weeks st' = weeks st /\ weekIndex st' = weekIndex st
    /\ images st' = week_images wk
    /\ cache st' = []
    /\ playing st' = playing st
    /\ slider_max st' = Z.max 1 (len (week_images wk))
    /\ slider_value st' = 1
    /\ (week_images wk <> [] ->
        pendingIndex st' = Some 0 /\ rafId st' = true
        /\ img_src st' = img_src st)
    /\ (week_images wk = [] ->
        pendingIndex st' = pendingIndex st /\ rafId st' = rafId st
        /\ img_src st' = None).
Proof.
  intros Hi. unfold loadWeek. rewrite Hi.
  destruct (week_images wk) as [|im imgs] eqn:E.
  - eexists. split; [reflexivity|]. cbn.
    repeat split; auto; congruence.
  - eexists. split; [reflexivity|]. cbn.
    repeat split; auto; congruence.
Qed.

End ViewerNavigation.

(** [loadWeek] throws exactly when the index is outside the manifest and
    then changes nothing; otherwise it installs that week's image list
    (the empty list when the week has none), empties the cache, puts the
    slider at 1 of [max(1, length)], and either requests image 0 or, for a
    week without images, clears the image element and requests nothing. *)
Theorem loadWeek_installs_week (i : Z) (st : Viewer.state) :
  ((i < 0 \/ Viewer.len (Viewer.weeks st) <= i) ->
   Viewer.loadWeek i st = Viewer.Throw st)
  /\ (0 <= i < Viewer.len (Viewer.weeks st) ->
      exists wk st',
        Viewer.index (Viewer.weeks st) i = Some wk
        /\ Viewer.loadWeek i st = Viewer.Return st'
        /\ Viewer.images st' = Viewer.week_images wk
        /\ Viewer.cache st' = []
        /\ Viewer.slider_max st' = Z.max 1 (Viewer.len (Viewer.images st'))
        /\ Viewer.slider_value st' = 1
        /\ (Viewer.images st' <> [] ->
            Viewer.pendingIndex st' = Some 0 /\ Viewer.rafId st' = true)
        /\ (Viewer.images st' = [] ->
            Viewer.img_src st' = None
            /\ Viewer.pendingIndex st' = Viewer.pendingIndex st)).
Proof.
  split.
  - intros Hi. apply index_None_iff in Hi.
    unfold Viewer.loadWeek. now rewrite Hi.
  - intros Hi.
    destruct (index_Some_range (Viewer.weeks st) i Hi) as (wk & Hwk).
    destruct (loadWeek_at i st wk Hwk)
      as (st' & H & _ & _ & Him & Hc & _ & Hm & Hv & Hne & He).
    exists wk, st'. rewrite Him.
    repeat (split; [assumption || reflexivity|]). split.
    + intros Hn. destruct (Hne Hn) as (? & ? & _). auto.
    + intros Hn. destruct (He Hn) as (? & _ & ?). auto.
Qed.

Lemma loadWeek_installs_week_witness :
  let st := Viewer.initial Viewer.sample_weeks in
  Viewer.loadWeek 3 st = Viewer.Throw st
  /\ exists wk st',
       Viewer.index (Viewer.weeks st) 1 = Some wk
       /\ Viewer.loadWeek 1 st = Viewer.Return st'
       /\ Viewer.images st' = []
       /\ Viewer.slider_max st' = 1.
Proof.
  intros st. split.
  - apply (proj1 (loadWeek_installs_week 3 st)). right. vm_compute.
    discriminate.
  - destruct (proj2 (loadWeek_installs_week 1 st))
      as (wk & st' & H1 & H2 & H3 & _ & H5 & _).
    + split; vm_compute; [discriminate|reflexivity].
    + exists wk, st'. split; [exact H1|]. split; [exact H2|].
      assert (E : Viewer.loadWeek 1 st
                  = Viewer.Return
                      (Viewer.mkState Viewer.sample_weeks 0 [] None false 0
                         [] false 1 1 None false)) by reflexivity.
      rewrite E in H2. injection H2 as <-. split; reflexivity.
Defined.

Lemma tickForward_cases (st : Viewer.state) :
  Viewer.consistent st -> Viewer.images st <> [] ->
  exists st',
    Viewer.tickForward st = Viewer.Return st'
    /\ Viewer.consistent st'
    /\ Viewer.weeks st' = Viewer.weeks st
    /\ Viewer.pendingIndex st' = Some (Viewer.slider_value st' - 1)
    /\ Viewer.rafId st' = true
    /\ ((Viewer.slider_value st < Viewer.len (Viewer.images st)
         /\ Viewer.weekIndex st' = Viewer.weekIndex st
         /\ Viewer.images st' = Viewer.images st
         /\ Viewer.slider_value st' = Viewer.slider_value st + 1)
        \/ (Viewer.slider_value st = Viewer.len (Viewer.images st)
            /\ Viewer.weekIndex st'
               = (Viewer.weekIndex st + 1) mod Viewer.len (Viewer.weeks st)
            /\ 0 <= Viewer.weekIndex st' < Viewer.len (Viewer.weeks st)
            /\ Viewer.slider_value st' = 1
            /\ Viewer.cache st' = [])).
Proof.
  intros ((wk & Hwk & Himg) & Hmax & Hval) Hne.
  pose proof (proj2 (len_pos_iff (Viewer.images st)) Hne) as Hlen.
  assert (Hweeks : 0 <= Viewer.weekIndex st < Viewer.len (Viewer.weeks st)).
  { destruct (Z_lt_le_dec (Viewer.weekIndex st) 0) as [Hn|Hn].
    - assert (Viewer.index (Viewer.weeks st) (Viewer.weekIndex st) = None)
        by (apply index_None_iff; lia). congruence.
    - destruct (Z_lt_le_dec (Viewer.weekIndex st)
                  (Viewer.len (Viewer.weeks st))) as [Hl|Hl]; [lia|].
      assert (Viewer.index (Viewer.weeks st) (Viewer.weekIndex st) = None)
        by (apply index_None_iff; lia). congruence. }
  unfold Viewer.tickForward.
  destruct (Viewer.images st) as [|im0 imgs0] eqn:Ei; [congruence|].
  rewrite <- Ei in *.
  replace (Viewer.slider_value st - 1 + 1) with (Viewer.slider_value st)
    by lia.
  destruct (Viewer.len (Viewer.images st) <=? Viewer.slider_value st) eqn:Ew.
  - apply Z.leb_le in Ew.
    set (i' := (Viewer.weekIndex st + 1) mod Viewer.len (Viewer.weeks st)).
    assert (Hi' : 0 <= i' < Viewer.len (Viewer.weeks st))
      by (subst i'; apply Z.mod_pos_bound; lia).
    destruct (index_Some_range (Viewer.weeks st) i' Hi') as (wk' & Hwk').
    destruct (loadWeek_at i' (Viewer.set_weekIndex i' st) wk' Hwk')
      as (st2 & H2 & Hws & Hwi & Him2 & Hc2 & _ & Hm2 & Hv2 & _).
    cbn [Viewer.weekIndex Viewer.set_weekIndex].
    fold (Viewer.set_weekIndex i' st). rewrite H2.
    eexists. split; [reflexivity|].
    cbn [Viewer.weeks Viewer.weekIndex Viewer.images Viewer.pendingIndex
         Viewer.rafId Viewer.cache Viewer.slider_max Viewer.slider_value
         Viewer.requestShow Viewer.set_slider_value Viewer.consistent].
    cbn [Viewer.weeks Viewer.weekIndex Viewer.set_weekIndex] in Hws, Hwi.
    split.
    { unfold Viewer.consistent.
      cbn [Viewer.weeks Viewer.weekIndex Viewer.images Viewer.slider_max
           Viewer.slider_value Viewer.requestShow Viewer.set_slider_value].
      rewrite Hws, Hwi, Him2, Hm2.
      split; [exists wk'; auto|]. split; [reflexivity|]. lia. }
    split; [exact Hws|]. split; [reflexivity|]. split; [reflexivity|].
    right. rewrite Hwi, Hc2. repeat split; auto; lia.
  - apply Z.leb_gt in Ew.
    eexists. split; [reflexivity|].
    cbn [Viewer.weeks Viewer.weekIndex Viewer.images Viewer.pendingIndex
         Viewer.rafId Viewer.cache Viewer.slider_max Viewer.slider_value
         Viewer.requestShow Viewer.set_slider_value].
    split.
    { unfold Viewer.consistent.
      cbn [Viewer.weeks Viewer.weekIndex Viewer.images Viewer.slider_max
           Viewer.slider_value Viewer.requestShow Viewer.set_slider_value].
      split; [exists wk; auto|]. split; [exact Hmax|]. lia. }
    split; [reflexivity|].
    split; [f_equal; lia|]. split; [reflexivity|].
    left. repeat split; auto.
Qed.

(** One tick of playback from a consistent state showing a non-empty week:
    it returns a consistent state over the same manifest with one frame
    callback pending for the image the slider now points at.  Below the
    last image it moves the slider one step within the week; on the last
    image it moves to the next week, wrapping after the last week to the
    first, with the slider at 1 and the cache emptied. *)
Theorem tickForward_advances (st : Viewer.state) :
  Viewer.consistent st -> Viewer.images st <> [] ->
  exists st',
    Viewer.tickForward st = Viewer.Return st'
    /\ Viewer.consistent st'
    /\ Viewer.weeks st' = Viewer.weeks st
    /\ Viewer.pendingIndex st' = Some (Viewer.slider_value st' - 1)
    /\ Viewer.rafId st' = true
    /\ ((Viewer.slider_value st < Viewer.len (Viewer.images st)
         /\ Viewer.weekIndex st' = Viewer.weekIndex st
         /\ Viewer.images st' = Viewer.images st
         /\ Viewer.slider_value st' = Viewer.slider_value st + 1)
        \/ (Viewer.slider_value st = Viewer.len (Viewer.images st)
            /\ Viewer.weekIndex st'
               = (Viewer.weekIndex st + 1) mod Viewer.len (Viewer.weeks st)
            /\ 0 <= Viewer.weekIndex st' < Viewer.len (Viewer.weeks st)
            /\ Viewer.slider_value st' = 1
            /\ Viewer.cache st' = [])).
Proof. exact (tickForward_cases st). Qed.

Lemma tickForward_advances_witness :
  let st := Viewer.mkState Viewer.sample_weeks 2
              [Viewer.mkImg (lit "w3/a.jpg")] None false 0 [] true 1 1
              None false in
  Viewer.consistent st
  /\ exists st',
       Viewer.tickForward st = Viewer.Return st'
       /\ Viewer.consistent st'
       /\ Viewer.weekIndex st' = 0
       /\ Viewer.pendingIndex st' = Some 0.
Proof.
  intros st.
  assert (Hc : Viewer.consistent st).
  { split; [|split; [reflexivity|split; discriminate]].
    eexists. split; reflexivity. }
  split; [exact Hc|].
  destruct (tickForward_advances st Hc) as (st' & H1 & H2 & _); [discriminate|].
  exists st'. split; [exact H1|]. split; [exact H2|].
  assert (E : Viewer.tickForward st
              = Viewer.Return
                  (Viewer.requestShow 0
                     (Viewer.mkState Viewer.sample_weeks 0
                        [Viewer.mkImg (lit "w1/a.jpg");
                         Viewer.mkImg (lit "w1/b.jpg");
                         Viewer.mkImg (lit "w1/c.jpg")]
                        (Some 0) true 1 [] true 3 1 None false)))
    by reflexivity.
  rewrite E in H1. injection H1 as <-. split; reflexivity.
Defined.

(** Playback cannot cross a week without images.  The tick that leaves the
    last image of a week for such a week returns with the empty list
    installed and image 0 requested; the frame callback for that request
    throws; and from then on every tick returns at once without changing
    anything, so the viewer stays on the empty week. *)
Theorem playback_stalls_on_week_without_images (complete : str -> bool)
  (st : Viewer.state) (wk : Viewer.week) :
  Viewer.consistent st -> Viewer.images st <> [] ->
  Viewer.slider_value st = Viewer.len (Viewer.images st) ->
  Viewer.index (Viewer.weeks st)
    ((Viewer.weekIndex st + 1) mod Viewer.len (Viewer.weeks st)) = Some wk ->
  Viewer.week_images wk = [] ->
  exists st',
    Viewer.tickForward st = Viewer.Return st'
    /\ Viewer.images st' = []
    /\ Viewer.pendingIndex st' = Some 0
    /\ (exists st0, Viewer.applyShow complete st' = Viewer.Throw st0)
    /\ Viewer.tickForward st' = Viewer.Return st'.
Proof.
  intros Hc Hne Hlast Hwk Hempty.
  destruct (tickForward_cases st Hc Hne)
    as (st' & Ht & Hc' & Hws & Hp & _ & [(Hlt & _)|(_ & Hwi & _ & Hv & _)]);
    [lia|].
  destruct Hc' as ((wk2 & Hwk2 & Himg) & _).
  rewrite Hws, Hwi, Hwk in Hwk2. injection Hwk2 as <-.
  rewrite Hempty in Himg. rewrite Hv in Hp.
  exists st'. split; [exact Ht|]. split; [exact Himg|].
  split; [exact Hp|]. split.
  - destruct (proj1 (applyShow_cases complete st' 0 Hp) Himg)
      as (st0 & H0 & _).
    now exists st0.
  - unfold Viewer.tickForward. now rewrite Himg.
Qed.

Lemma playback_stalls_on_week_without_images_witness :
  let st := Viewer.mkState Viewer.sample_weeks 0
              [Viewer.mkImg (lit "w1/a.jpg"); Viewer.mkImg (lit "w1/b.jpg");
               Viewer.mkImg (lit "w1/c.jpg")]
              None false 0 [] true 3 3 None false in
  exists st',
    Viewer.tickForward st = Viewer.Return st'
    /\ Viewer.images st' = []
    /\ Viewer.pendingIndex st' = Some 0
    /\ (exists st0, Viewer.applyShow (fun _ => true) st' = Viewer.Throw st0)
    /\ Viewer.tickForward st' = Viewer.Return st'.
Proof.
  intros st.
  apply (playback_stalls_on_week_without_images (fun _ => true) st
           (Viewer.mkWeek (lit "Week 02") None)).
  - split; [|split; [reflexivity|split; discriminate]].
    eexists. split; reflexivity.
  - discriminate.
  - reflexivity.
  - reflexivity.
  - reflexivity.
Defined.

(** The arrow keys on a consistent state showing a non-empty week: the
    slider moves one step and stops at the ends (1 on the left, the number
    of images on the right), playback is switched off, the state stays
    consistent, and the image requested is the one the slider points at,
    always inside the list. *)
Theorem arrow_keys_stay_in_list (st : Viewer.state) :
  Viewer.consistent st -> Viewer.images st <> [] ->
  let l := Viewer.key_left st in
  let r := Viewer.key_right st in
  Viewer.consistent l /\ Viewer.consistent r
  /\ Viewer.slider_value l = Z.max 1 (Viewer.slider_value st - 1)
  /\ Viewer.slider_value r
     = Z.min (Viewer.len (Viewer.images st)) (Viewer.slider_value st + 1)
  /\ Viewer.pendingIndex l = Some (Viewer.slider_value l - 1)
  /\ Viewer.pendingIndex r = Some (Viewer.slider_value r - 1)
  /\ 0 <= Viewer.slider_value l - 1 < Viewer.len (Viewer.images st)
  /\ 0 <= Viewer.slider_value r - 1 < Viewer.len (Viewer.images st)
  /\ Viewer.playing l = false /\ Viewer.playing r = false
  /\ Viewer.images l = Viewer.images st /\ Viewer.images r = Viewer.images st.
Proof.
  intros ((wk & Hwk & Himg) & Hmax & Hval) Hne l r.
  pose proof (proj2 (len_pos_iff (Viewer.images st)) Hne) as Hlen.
  subst l r. unfold Viewer.key_left, Viewer.key_right, Viewer.consistent.
  destruct (Viewer.images st) as [|im0 imgs0] eqn:Ei; [congruence|].
  rewrite <- Ei in *.
  cbn [Viewer.weeks Viewer.weekIndex Viewer.images Viewer.pendingIndex
       Viewer.playing Viewer.slider_max Viewer.slider_value
       Viewer.requestShow Viewer.set_slider_value Viewer.stopPlayback].
  rewrite Hmax.
  repeat split; eauto; try lia.
Qed.

Lemma arrow_keys_stay_in_list_witness :
  let st := Viewer.mkState Viewer.sample_weeks 0
              [Viewer.mkImg (lit "w1/a.jpg"); Viewer.mkImg (lit "w1/b.jpg");
               Viewer.mkImg (lit "w1/c.jpg")]
              None false 0 [] true 3 3 None false in
  Viewer.slider_value (Viewer.key_right st) = 3
  /\ Viewer.slider_value (Viewer.key_left st) = 2
  /\ Viewer.consistent (Viewer.key_left st).
Proof.
  intros st.
  assert (Hc : Viewer.consistent st).
  { split; [|split; [reflexivity|split; discriminate]].
    eexists. split; reflexivity. }
  destruct (arrow_keys_stay_in_list st Hc) as (H1 & _); [discriminate|].
  split; [reflexivity|]. split; [reflexivity|exact H1].
Defined.
